(** * assign_matrix: HotCRP review preferences rendered as a LaTeX matrix

    A shallow embedding of [assign_matrix.py].  Python dictionaries whose
    iteration order is used ([papers], [pc], [conv]) are kept together with
    their insertion order; dictionaries that are only looked up ([prefs],
    [prefs_type], [assigned], [email], [prefs_scaled]) are finite maps.
    Exceptions are an explicit result type.  Python floats are idealised:
    a quotient of integers that is only compared or truncated is kept exact
    ([Q], [Z.quot]); square roots and powers are real numbers. *)

From Stdlib Require Import ZArith QArith Qround Reals Lra Lia String Ascii List.
From Stdlib Require Import DecimalString DecimalPos Permutation Sorted.
From stdpp Require Import gmap strings list fin_maps sorting.

Open Scope string_scope.
Open Scope Z_scope.

(* ===================================================================== *)
(** * Exceptions *)
(* ===================================================================== *)

Inductive exn : Type :=
  | KeyError
  | ValueError
  | ZeroDivisionError
  | IndexError.

Inductive result (A : Type) : Type :=
  | Ok (a : A)
  | Raise (e : exn).
Arguments Ok {A} a.
Arguments Raise {A} e.

#[global] Instance result_ret : MRet result := λ A a, Ok a.
#[global] Instance result_bind : MBind result :=
  λ A B f m, match m with Ok a => f a | Raise e => Raise e end.

(** [d[k]] on a dictionary: a missing key raises [KeyError]. *)
Definition getitem {K V} `{Countable K} (d : gmap K V) (k : K) : result V :=
  match d !! k with
  | Some v => Ok v
  | None => Raise KeyError
  end.

(* ===================================================================== *)
(** * Python built-ins used by the script *)
(* ===================================================================== *)

(** [sorted(l, key=key)]: a stable ascending sort.  [sorted_insert x l]
    puts [x], which came before the elements of [l], in front of the first
    element whose key is not smaller than its own. *)
Section Sorted.
Context {A K : Type} (ltb : K → K → bool) (key : A → K).

Fixpoint sorted_insert (x : A) (l : list A) : list A :=
  match l with
  | [] => [x]
  | y :: l' =>
      if ltb (key y) (key x) then y :: sorted_insert x l' else x :: y :: l'
  end.

Definition sorted (l : list A) : list A := foldr sorted_insert [] l.
End Sorted.

(** [str(n)] for an integer. *)
Definition str (n : Z) : string := NilZero.string_of_int (Z.to_int n).

(** [regex.sub(repl, text)] for a pattern that is an alternation of
    literals: at each position the first alternative that matches is
    replaced and the scan resumes after it; otherwise the character is
    copied.  [skip] counts the characters of a match still to be consumed. *)
Fixpoint starts_with (k text : string) : bool :=
  match k with
  | EmptyString => true
  | String a k' =>
      match text with
      | EmptyString => false
      | String b text' => Ascii.eqb a b && starts_with k' text'
      end
  end.

Fixpoint match_alt (alts : list string) (text : string) : option string :=
  match alts with
  | [] => None
  | k :: rest => if starts_with k text then Some k else match_alt rest text
  end.

Fixpoint regex_sub (alts : list string) (repl : string → string)
    (skip : nat) (text : string) : string :=
  match text with
  | EmptyString => EmptyString
  | String c rest =>
      match skip with
      | S n => regex_sub alts repl n rest
      | O =>
          match match_alt alts text with
          | Some k => repl k ++ regex_sub alts repl (Nat.pred (String.length k)) rest
          | None => String c (regex_sub alts repl O rest)
          end
      end
  end.

(* ===================================================================== *)
(** * [latex_encode] *)
(* ===================================================================== *)

Definition conv : list (string * string) :=
  [ ("&", "\&");
    ("%", "\%");
    ("$", "\$");
    ("#", "\#");
    ("_", "\_");
    ("{", "\{");
    ("}", "\}");
    ("~", "\textasciitilde{}");
    ("^", "\^{}");
    ("\", "\textbackslash{}");
    ("<", "\textless{}");
    (">", "\textgreater{}") ].

(** [conv[k]]; only called on a key that matched. *)
Definition conv_get (k : string) : string :=
  match find (λ kv, String.eqb (fst kv) k) conv with
  | Some kv => snd kv
  | None => EmptyString
  end.

(** The alternatives of the compiled pattern, longest key first. *)
Definition conv_alts : list string :=
  sorted Z.ltb (λ item, - Z.of_nat (String.length item)) (map fst conv).

Definition latex_encode (text : string) : string :=
  regex_sub conv_alts conv_get O text.

(** Text without any reserved character. *)
Fixpoint clean (text : string) : bool :=
  match text with
  | EmptyString => true
  | String c rest =>
      negb (existsb (String.eqb (String c EmptyString)) (map fst conv)) && clean rest
  end.

(** One step of the scan, character by character. *)
Definition escape_char (c : ascii) : string :=
  match match_alt conv_alts (String c EmptyString) with
  | Some k => conv_get k
  | None => String c EmptyString
  end.

(* ===================================================================== *)
(** * Input tables and the dictionaries built from them *)
(* ===================================================================== *)

(** The rows [csv.DictReader] yields, one field per column that is read. *)
Record pref_row : Type := {
  p_paper : string;
  p_title : string;
  p_first : string;
  p_last : string;
  p_email : string;
  p_topic_score : string;
  p_preference : string;
  p_conflict : string
}.

Record length_row : Type := { l_ID : string; l_Pages : string }.

Record assign_row : Type := {
  a_action : string;
  a_email : string;
  a_paper : string
}.

(** [papers[p]]: keys ['title'] and ['n_pages']. *)
Record paper_info : Type := { title : string; n_pages : Z }.

(** [pc[name]]: keys ['num'], ['email'], and ['min'], ['max'] once the
    scaling bounds are computed. *)
Record pc_info : Type := {
  num : Z;
  pc_email : string;
  pc_min : option Z;
  pc_max : option Z
}.

(** The score-kind tag: ['T'], ['P'] or ['C']. *)
Inductive kind : Type := TagT | TagP | TagC.

Definition kind_str (k : kind) : string :=
  match k with TagT => "T" | TagP => "P" | TagC => "C" end.

Definition kind_eqb (a b : kind) : bool :=
  match a, b with
  | TagT, TagT | TagP, TagP | TagC, TagC => true
  | _, _ => false
  end.

(** A dictionary whose iteration order is used: the items in insertion
    order; assigning to a key that is present keeps its position. *)
Section ODict.
Context {V : Type}.

Definition odict_get (d : list (string * V)) (k : string) : option V :=
  snd <$> find (λ kv, String.eqb (fst kv) k) d.

Fixpoint odict_set (d : list (string * V)) (k : string) (v : V)
    : list (string * V) :=
  match d with
  | [] => [(k, v)]
  | (k', v') :: d' =>
      if String.eqb k' k then (k, v) :: d' else (k', v') :: odict_set d' k v
  end.

Definition keys (d : list (string * V)) : list string := map fst d.
End ODict.

(** [d[p][name]] as a test [name in d[p]] followed by the read. *)
Definition lookup2 {V} (d : gmap string (gmap string V)) (p name : string)
    : option V :=
  d !! p ≫= λ row, row !! name.

(** [d[p][name] = v] where [d[p]] is present. *)
Definition setitem2 {V} (d : gmap string (gmap string V)) (p name : string)
    (v : V) : gmap string (gmap string V) :=
  <[p := <[name := v]> (default ∅ (d !! p))]> d.

Record tables : Type := {
  papers : list (string * paper_info);
  pc : list (string * pc_info);
  prefs : gmap string (gmap string Z);
  prefs_type : gmap string (gmap string kind);
  assigned : gmap string (gmap string Z);
  email : gmap string string
}.

Definition empty_tables : tables :=
  {| papers := []; pc := []; prefs := ∅; prefs_type := ∅;
     assigned := ∅; email := ∅ |}.

(** Loops whose body may raise. *)
Fixpoint for_each {A S : Type} (body : S → A → result S) (s : S)
    (l : list A) : result S :=
  match l with
  | [] => Ok s
  | x :: l' => s' ← body s x; for_each body s' l'
  end.

(* ===================================================================== *)
(** * [int(text)] *)
(* ===================================================================== *)

Definition digit_of (c : ascii) : option Z :=
  let n := Z.of_N (N_of_ascii c) in
  if (48 <=? n) && (n <=? 57) then Some (n - 48) else None.

Definition is_space (c : ascii) : bool :=
  let n := Z.of_N (N_of_ascii c) in
  ((9 <=? n) && (n <=? 13)) || ((28 <=? n) && (n <=? 32)).

Fixpoint lstrip (s : string) : string :=
  match s with
  | String c s' => if is_space c then lstrip s' else s
  | EmptyString => EmptyString
  end.

Definition string_rev (s : string) : string :=
  string_of_list_ascii (rev (list_ascii_of_string s)).

Definition strip (s : string) : string :=
  string_rev (lstrip (string_rev (lstrip s))).

(** ASCII decimal digits, a single underscore allowed between two
    digits. *)
Fixpoint parse_digits (acc : Z) (after_digit : bool) (s : string) : option Z :=
  match s with
  | EmptyString => if after_digit then Some acc else None
  | String c s' =>
      match digit_of c with
      | Some d => parse_digits (10 * acc + d) true s'
      | None =>
          if Ascii.eqb c "_" && after_digit then parse_digits acc false s'
          else None
      end
  end.

Definition int (text : string) : result Z :=
  let body := strip text in
  let parsed :=
    match body with
    | String "-" digits => Z.opp <$> parse_digits 0 false digits
    | String "+" digits => parse_digits 0 false digits
    | _ => parse_digits 0 false body
    end in
  match parsed with
  | Some n => Ok n
  | None => Raise ValueError
  end.

(* ===================================================================== *)
(** * Loading the tables *)
(* ===================================================================== *)

(** [name = line['first']+" "+line['last']]. *)
Definition reviewer_name (line : pref_row) : string :=
  p_first line ++ " " ++ p_last line.

(** The score text and the tag a row ends up with: the topic score, then
    the preference when there is one, then the conflict. *)
Definition signal (line : pref_row) : string * kind :=
  let '(score, ty) := (p_topic_score line, TagT) in
  let '(score, ty) :=
    if negb (String.eqb (p_preference line) "") then (p_preference line, TagP)
    else (score, ty) in
  if String.eqb (p_conflict line) "conflict" then ("-100", TagC)
  else (score, ty).

(** One iteration of the loop over the preferences file. *)
Definition process_pref (st : tables) (line : pref_row) : result tables :=
  let known := bool_decide (is_Some (odict_get (papers st) (p_paper line))) in
  let papers1 :=
    if known then papers st
    else odict_set (papers st) (p_paper line)
           {| title := p_title line; n_pages := 20 |} in
  let prefs1 := if known then prefs st else <[p_paper line := ∅]> (prefs st) in
  let prefs_type1 :=
    if known then prefs_type st else <[p_paper line := ∅]> (prefs_type st) in
  let assigned1 :=
    if known then assigned st else <[p_paper line := ∅]> (assigned st) in
  let name := reviewer_name line in
  let seen := bool_decide (is_Some (odict_get (pc st) name)) in
  let pc1 :=
    if seen then pc st
    else odict_set (pc st) name
           {| num := Z.of_nat (length (pc st)) + 1; pc_email := p_email line;
              pc_min := None; pc_max := None |} in
  let email1 := if seen then email st else <[p_email line := name]> (email st) in
  let '(score, ty) := signal line in
  n ← int score;
  Ok {| papers := papers1; pc := pc1;
        prefs := setitem2 prefs1 (p_paper line) name n;
        prefs_type := setitem2 prefs_type1 (p_paper line) name ty;
        assigned := assigned1; email := email1 |}.

Definition process_prefs (rows : list pref_row) : result tables :=
  for_each process_pref empty_tables rows.

(** One iteration of the loop over the lengths file. *)
Definition process_length (st : tables) (line : length_row) : result tables :=
  n ← int (l_Pages line);
  match odict_get (papers st) (l_ID line) with
  | None => Raise KeyError
  | Some info =>
      Ok {| papers := odict_set (papers st) (l_ID line)
                        {| title := title info; n_pages := n |};
            pc := pc st; prefs := prefs st; prefs_type := prefs_type st;
            assigned := assigned st; email := email st |}
  end.

(** One iteration of the loop over the assignment file. *)
Definition process_assign (st : tables) (line : assign_row) : result tables :=
  if String.eqb (a_action line) "primary" then
    row ← getitem (assigned st) (a_paper line);
    name ← getitem (email st) (a_email line);
    Ok {| papers := papers st; pc := pc st; prefs := prefs st;
          prefs_type := prefs_type st;
          assigned := <[a_paper line := <[name := 1]> row]> (assigned st);
          email := email st |}
  else Ok st.

(* ===================================================================== *)
(** * Scaling *)
(* ===================================================================== *)

(** The body of the loop over [papers] that tracks one reviewer's
    smallest and largest score. *)
Definition minmax_step (prefs : gmap string (gmap string Z)) (name : string)
    (acc : Z * Z) (p : string) : Z * Z :=
  let '(mn, mx) := acc in
  match lookup2 prefs p name with
  | Some score =>
      if -100 <? score then
        let mx' := if mx <? score then score else mx in
        let mn' := if score <? mn then score else mn in
        (mn', mx')
      else (mn, mx)
  | None => (mn, mx)
  end.

Definition individual_minmax (st : tables) (name : string) : Z * Z :=
  fold_left (minmax_step (prefs st) name) (keys (papers st)) (0, 0).

Definition set_bounds (info : pc_info) (mn mx : Z) : pc_info :=
  {| num := num info; pc_email := pc_email info;
     pc_min := Some mn; pc_max := Some mx |}.

(** The [if opt_scale: ... else: ...] block. *)
Definition compute_bounds (opt_scale : bool) (st : tables)
    : list (string * pc_info) :=
  map (λ '(name, info),
         if opt_scale then
           let '(mn, mx) := individual_minmax st name in
           (name, set_bounds info mn mx)
         else (name, set_bounds info (-20) 20))
      (pc st).

(** The tables once [pc[name]['min']] and [pc[name]['max']] are set. *)
Definition with_bounds (opt_scale : bool) (st : tables) : tables :=
  {| papers := papers st; pc := compute_bounds opt_scale st;
     prefs := prefs st; prefs_type := prefs_type st;
     assigned := assigned st; email := email st |}.

(** [int(100*(raw-min)/(max-min))] followed by the two clamping tests.
    The float quotient of two integers, truncated by [int], is the integer
    quotient rounded toward zero (exact as long as the operands are below
    2^53 in absolute value). *)
Definition scale (raw mn mx : Z) : result Z :=
  if mx - mn =? 0 then Raise ZeroDivisionError
  else
    let v := Z.quot (100 * (raw - mn)) (mx - mn) in
    let v := if 100 <? v then 100 else v in
    let v := if v <? 0 then 0 else v in
    Ok v.

Definition option_get {A} (o : option A) : result A :=
  match o with
  | Some a => Ok a
  | None => Raise KeyError
  end.

(** The body of the inner loop over [pc] for paper [p]. *)
Definition scaled_step (prefs : gmap string (gmap string Z)) (p : string)
    (row : gmap string Z) (item : string * pc_info) : result (gmap string Z) :=
  let '(name, info) := item in
  match lookup2 prefs p name with
  | Some raw =>
      if -100 <? raw then
        mn ← option_get (pc_min info);
        mx ← option_get (pc_max info);
        v ← scale raw mn mx;
        Ok (<[name := v]> row)
      else Ok row
  | None => Ok row
  end.

Definition compute_prefs_scaled (prefs : gmap string (gmap string Z))
    (papers : list string) (pc : list (string * pc_info))
    : result (gmap string (gmap string Z)) :=
  for_each (λ tbl p,
              row ← for_each (scaled_step prefs p) ∅ pc;
              Ok (<[p := row]> tbl))
           ∅ papers.

(* ===================================================================== *)
(** * Ordering papers by similarity *)
(* ===================================================================== *)

Definition list_getitem {A} (l : list A) (i : nat) : result A :=
  match l !! i with
  | Some x => Ok x
  | None => Raise IndexError
  end.

(** The body of the loop of [paper_dist]: [s] is the sum of squares and
    [t] the number of reviewers with a scaled entry for both papers. *)
Definition shared_step (prefs_scaled : gmap string (gmap string Z))
    (p1 p2 : string) (acc : Z * Z) (name : string) : Z * Z :=
  let '(s, t) := acc in
  match lookup2 prefs_scaled p1 name, lookup2 prefs_scaled p2 name with
  | Some v1, Some v2 => (s + (v1 - v2) ^ 2, t + 1)
  | _, _ => (s, t)
  end.

Definition shared_sums (prefs_scaled : gmap string (gmap string Z))
    (pc : list string) (p1 p2 : string) : Z * Z :=
  fold_left (shared_step prefs_scaled p1 p2) pc (0, 0).

(** [math.sqrt(s)/math.sqrt(t)]; the float division raises when [t] is 0. *)
Definition paper_dist (prefs_scaled : gmap string (gmap string Z))
    (pc : list string) (p1 p2 : string) : result R :=
  let '(s, t) := shared_sums prefs_scaled pc p1 p2 in
  if t =? 0 then Raise ZeroDivisionError
  else Ok (sqrt (IZR s) / sqrt (IZR t))%R.

(** [x ** y] on non-negative floats. *)
Definition float_pow (x y : R) : R :=
  if Req_dec_T x 0 then 0%R else Rpower x y.

Definition float_lt (x y : R) : bool :=
  if Rlt_dec x y then true else false.

Section Orderer.
Context (prefs_scaled : gmap string (gmap string Z)) (pc : list string).

(** The two nested loops of [papers_dist]: the product of the distances
    and the number of pairs. *)
Definition product_step (p1 : string) (acc : R * Z) (p2 : string)
    : result (R * Z) :=
  let '(p, t) := acc in
  d ← paper_dist prefs_scaled pc p1 p2;
  Ok ((p * d)%R, t + 1).

Definition papers_dist (l1 l2 : list string) : result R :=
  '(p, t) ← for_each (λ acc p1, for_each (product_step p1) acc l2)
                     (1%R, 0) l1;
  if t =? 0 then Raise ZeroDivisionError
  else Ok (float_pow p (1 / IZR t)).

(** The pairs [(i, j)] in the order the two [for] loops visit them. *)
Definition scan_pairs (n : nat) : list (nat * nat) :=
  flat_map (λ i, map (λ j, (i, j)) (seq (i + 1) (n - (i + 1)))) (seq 0 n).

Definition group_dist (sorted_papers : list (list string)) (ij : nat * nat)
    : result R :=
  l1 ← list_getitem sorted_papers (fst ij);
  l2 ← list_getitem sorted_papers (snd ij);
  papers_dist l1 l2.

(** The body of the inner [for] loop: the [if] that updates [best]. *)
Definition best_step (sorted_papers : list (list string))
    (best ij : nat * nat) : result (nat * nat) :=
  d ← group_dist sorted_papers ij;
  d_best ← group_dist sorted_papers best;
  Ok (if float_lt d d_best then ij else best).

Definition find_best (sorted_papers : list (list string))
    : result (nat * nat) :=
  for_each (best_step sorted_papers) (0%nat, 1%nat)
           (scan_pairs (length sorted_papers)).

(** The assignment that merges the groups at [best]. *)
Definition merge (sorted_papers : list (list string)) (best : nat * nat)
    : result (list (list string)) :=
  let '(b0, b1) := best in
  l0 ← list_getitem sorted_papers b0;
  l1 ← list_getitem sorted_papers b1;
  Ok (take b0 sorted_papers ++ [l0 ++ l1]
      ++ drop (b0 + 1) (take b1 sorted_papers)
      ++ drop (b1 + 1) sorted_papers)%list.

(** The [while] loop; [None] when [fuel] iterations do not reach its
    exit. *)
Fixpoint cluster (fuel : nat) (sorted_papers : list (list string))
    : option (result (list (list string))) :=
  if bool_decide (1 < length sorted_papers)%nat then
    match fuel with
    | O => None
    | S fuel' =>
        match find_best sorted_papers ≫= merge sorted_papers with
        | Ok sorted_papers' => cluster fuel' sorted_papers'
        | Raise e => Some (Raise e)
        end
    end
  else Some (Ok sorted_papers).

(** From [sorted_papers = [[p] for p in papers]] to
    [sorted_papers = sorted_papers[0]].  The loop ends within
    [length papers] iterations, so the [None] branch is not taken. *)
Definition order_papers (papers : list string) : result (list string) :=
  let sorted_papers := map (λ p, [p]) papers in
  match cluster (length sorted_papers) sorted_papers with
  | Some r => sorted_papers' ← r; list_getitem sorted_papers' 0
  | None => Raise IndexError
  end.
End Orderer.

(* ===================================================================== *)
(** * Ordering reviewers by affinity *)
(* ===================================================================== *)

Definition affinity_step (prefs_scaled : gmap string (gmap string Z))
    (name : string) (acc : Z * Z) (ip : nat * string) : Z * Z :=
  let '(s, t) := acc in
  let '(i, p) := ip in
  match lookup2 prefs_scaled p name with
  | Some v => (s + v * Z.of_nat i, t + v)
  | None => (s, t)
  end.

Definition affinity_sums (prefs_scaled : gmap string (gmap string Z))
    (sorted_papers : list string) (name : string) : Z * Z :=
  fold_left (affinity_step prefs_scaled name)
            (combine (seq 0 (length sorted_papers)) sorted_papers) (0, 0).

(** [s / t] is kept as the exact quotient. *)
Definition affinity (prefs_scaled : gmap string (gmap string Z))
    (sorted_papers : list string) (name : string) : Q :=
  let '(s, t) := affinity_sums prefs_scaled sorted_papers name in
  if 0 <? t then (s # Z.to_pos t)%Q else (-1 # 1)%Q.

Definition Qltb (x y : Q) : bool := negb (Qle_bool y x).

Definition sort_pc (prefs_scaled : gmap string (gmap string Z))
    (sorted_papers : list string) (pc : list string) : list string :=
  sorted Qltb (affinity prefs_scaled sorted_papers) pc.

(* ===================================================================== *)
(** * Rendering *)
(* ===================================================================== *)

Definition pretty (st : tables) (prefs_scaled : gmap string (gmap string Z))
    (p name : string) : result string :=
  let a := if bool_decide (is_Some (lookup2 (assigned st) p name))
           then "A" else "" in
  match lookup2 (prefs st) p name with
  | None => Ok ("\Prate" ++ a ++ "{50}{?}")
  | Some raw =>
      ty ← option_get (lookup2 (prefs_type st) p name);
      if kind_eqb ty TagC then Ok ("\Prate" ++ a ++ "{-100}{C}")
      else if raw =? -100 then Ok ("\Prate" ++ a ++ "{-100}{-100}")
      else
        v ← option_get (lookup2 prefs_scaled p name);
        Ok ("\" ++ kind_str ty ++ "rate" ++ a ++ "{" ++ str v ++ "}{"
            ++ kind_str ty ++ str raw ++ "}")
  end.

(** Standard output: the text written so far, and how the run went on. *)
Definition prog (A : Type) : Type := (string * result A)%type.

#[global] Instance prog_ret : MRet prog := λ A a, (EmptyString, Ok a).
#[global] Instance prog_bind : MBind prog :=
  λ A B f m,
    match m with
    | (out, Ok a) => let '(out', r) := f a in (out ++ out', r)
    | (out, Raise e) => (out, Raise e)
    end.

Definition nl : string := String (ascii_of_nat 10) EmptyString.

(** [print(text, end=ending)]. *)
Definition print (text ending : string) : prog unit := (text ++ ending, Ok tt).

Definition lift {A} (r : result A) : prog A := (EmptyString, r).

Fixpoint for_print {A} (body : A → prog unit) (l : list A) : prog unit :=
  match l with
  | [] => mret tt
  | x :: l' => _ ← body x; for_print body l'
  end.

Definition header_packages : string :=
  "\documentclass{standalone}

\usepackage[table]{xcolor}
\usepackage{array,booktabs}
\usepackage{graphicx}
\usepackage{truncate}
\usepackage{soul}
\usepackage{eqparbox}
\usepackage[utf8]{inputenc}

\newif\ifcolor
".

Definition header_macros : string :=
  "\ifcolor
\definecolor{MyGreen-hsb}{hsb}{0.34065,1,0.91}
\newcommand{\rate}[2]{\ifnum#1=-100%
\color{red!50!black}#2%
\else\ifnum#1=100%
\color{MyGreen-hsb!50!black}#2%
\else%
\color{MyGreen-hsb!#1!red!67!black}#2%
\fi\fi}
\newcommand{\rateA}[2]{\color{black}%
\ifnum#1=-100%
\cellcolor{red!50!black}#2%
\else\ifnum#1=100%
\cellcolor{MyGreen-hsb!50!black}#2%
\else%
\cellcolor{MyGreen-hsb!#1!red}#2%
\fi\fi}
\else
\newcommand{\rate}[2]{\ifnum#1=-100%
\color{black!25}#2%
\else\ifnum#1=100%
\color{black}#2%
\else%
\color{black!#1!white!75}#2%
\fi\fi}
\newcommand{\rateA}[2]{\color{black}%
\ifnum#1=-100%
\cellcolor{black!25}#2%
\else\ifnum#1=100%
\cellcolor{black!75}#2%
\else%
\cellcolor{black!#1!white!75}#2%
\fi\fi}
\newcommand{\TrateA}{\PrateA}
\fi
\def\Prate{\bfseries\rate}
\def\Trate{\itshape\rate}
\def\PrateA{\bfseries\rateA}
\def\TrateA{\itshape\rateA}

\newcommand*\rot{\normalsize\color{black}\rotatebox{90}}
\newcommand*\trunc{\small\truncate{12cm}}
\newcommand{\pp}[1]{\eqmakebox[pp][l]{{\color{black!50} (#1p)}}}

\setlength{\tabcolsep}{1pt}%
\setlength\extrarowheight{5pt}%
\newcolumntype{s}{>{\footnotesize\color{black!50}}c}

\begin{document}
\sffamily
\begin{tabular}{|l*{99}{|s}|}
\hline
".

Definition footer : string :=
  "\end{tabular}

\end{document}".

(** The pages assigned to a reviewer: the loop over [papers] in the PC
    list. *)
Definition assigned_pages (st : tables) (name : string) : Z :=
  fold_left (λ t '(p, info),
               if bool_decide (is_Some (lookup2 (assigned st) p name))
               then t + n_pages info else t)
            (papers st) 0.

Record options : Type := {
  opt_black : bool;
  opt_scale : bool;
  opt_order : bool
}.

(** The blocks [if lengths_file: ...] and [if assign_file: ...]. *)
Definition process_lengths (st : tables) (lengths_file : option (list length_row))
    : result tables :=
  match lengths_file with
  | Some rows => for_each process_length st rows
  | None => Ok st
  end.

Definition process_assigns (st : tables) (assign_file : option (list assign_row))
    : result tables :=
  match assign_file with
  | Some rows => for_each process_assign st rows
  | None => Ok st
  end.

(** Reading the three files. *)
Definition load (pref_file : list pref_row)
    (assign_file : option (list assign_row))
    (lengths_file : option (list length_row)) : result tables :=
  st ← process_prefs pref_file;
  st ← process_lengths st lengths_file;
  process_assigns st assign_file.

Definition reorder (opts : options) (st : tables)
    (prefs_scaled : gmap string (gmap string Z))
    : result (list string * list string) :=
  if opt_order opts then
    sorted_papers ← order_papers prefs_scaled (keys (pc st)) (keys (papers st));
    Ok (sorted_papers, sort_pc prefs_scaled sorted_papers (keys (pc st)))
  else Ok (keys (papers st), keys (pc st)).

Definition print_pc (st : tables) (lengths : bool) (name : string) : prog unit :=
  let pages :=
    if lengths then "\pp{" ++ str (assigned_pages st name) ++ "} " else "" in
  print (" & \rot{" ++ pages ++ latex_encode name ++ "}") "".

Definition print_paper (st : tables)
    (prefs_scaled : gmap string (gmap string Z)) (lengths : bool)
    (sorted_pc : list string) (p : string) : prog unit :=
  info ← lift (option_get (odict_get (papers st) p));
  let pages :=
    if lengths then "\pp{" ++ str (n_pages info) ++ "} " else "" in
  _ ← print ("\eqmakebox[nn][l]{" ++ p ++ ".} \trunc{" ++ pages
             ++ latex_encode (title info) ++ "}") "";
  _ ← for_print (λ name,
                   cell ← lift (pretty st prefs_scaled p name);
                   print (" & " ++ cell) "")
                sorted_pc;
  print (" & " ++ p ++ " \\ \hline") nl.

(** The script, from the LaTeX header to the footer. *)
Definition run (opts : options) (pref_file : list pref_row)
    (assign_file : option (list assign_row))
    (lengths_file : option (list length_row)) : prog unit :=
  _ ← print header_packages nl;
  _ ← print (if opt_black opts then "\colorfalse" else "\colortrue") nl;
  _ ← print header_macros nl;
  st ← lift (load pref_file assign_file lengths_file);
  let st := with_bounds (opt_scale opts) st in
  prefs_scaled ← lift (compute_prefs_scaled (prefs st) (keys (papers st)) (pc st));
  '(sorted_papers, sorted_pc) ← lift (reorder opts st prefs_scaled);
  let lengths := bool_decide (is_Some lengths_file) in
  _ ← for_print (print_pc st lengths) sorted_pc;
  _ ← print "\\ \hline" nl;
  _ ← for_print (print_paper st prefs_scaled lengths sorted_pc) sorted_papers;
  print footer nl.

(* ===================================================================== *)
(** * Small inputs *)
(* ===================================================================== *)

Definition pref_line (paper first last topic_score preference conflict : string)
    : pref_row :=
  {| p_paper := paper; p_title := "Paper " ++ paper;
     p_first := first; p_last := last;
     p_email := first ++ "@example.org";
     p_topic_score := topic_score; p_preference := preference;
     p_conflict := conflict |}.

Definition default_options : options :=
  {| opt_black := false; opt_scale := false; opt_order := false |}.

Definition scale_options : options :=
  {| opt_black := false; opt_scale := true; opt_order := false |}.

Definition order_options : options :=
  {| opt_black := false; opt_scale := false; opt_order := true |}.

(** The tables read from a preferences file that loads without error, and
    the scaled preferences computed from tables whose scaling succeeds. *)
Definition loaded (pref_file : list pref_row) : tables :=
  match process_prefs pref_file with
  | Ok st => st
  | Raise _ => empty_tables
  end.

Definition scaled (opt_scale : bool) (st : tables) : gmap string (gmap string Z) :=
  match compute_prefs_scaled (prefs st) (keys (papers st))
          (compute_bounds opt_scale st) with
  | Ok prefs_scaled => prefs_scaled
  | Raise _ => ∅
  end.

Definition rows_thirds : list pref_row :=
  [pref_line "1" "Ann" "A" "0" "" "";
   pref_line "2" "Ann" "A" "0" "2" "";
   pref_line "3" "Ann" "A" "0" "3" ""].

Definition rows_positive : list pref_row :=
  [pref_line "1" "Ann" "A" "0" "5" "";
   pref_line "2" "Ann" "A" "0" "10" ""].

Definition rows_mixed : list pref_row :=
  [pref_line "1" "Ann" "A" "0" "5" "";
   pref_line "2" "Ann" "A" "0" "-7" "";
   pref_line "3" "Ann" "A" "0" "" "conflict"].

Definition rows_minus_100 : list pref_row :=
  [pref_line "1" "Ann" "A" "0" "-100" "";
   pref_line "1" "Bob" "B" "3" "" "conflict";
   pref_line "2" "Ann" "A" "4" "" ""].

Definition rows_lowest : list pref_row :=
  [pref_line "1" "Ann" "A" "0" "-20" "";
   pref_line "2" "Ann" "A" "0" "-20" ""].

Definition rows_opposed : list pref_row :=
  [pref_line "1" "Ann" "A" "0" "20" "";
   pref_line "1" "Bob" "B" "0" "0" "";
   pref_line "2" "Ann" "A" "0" "-20" "";
   pref_line "2" "Bob" "B" "0" "20" ""].

Definition rows_disjoint : list pref_row :=
  [pref_line "1" "Ann" "A" "0" "5" "";
   pref_line "2" "Bob" "B" "0" "5" ""].

Definition assign_ann : assign_row :=
  {| a_action := "primary"; a_email := "Ann@example.org"; a_paper := "1" |}.

Definition assign_nobody : assign_row :=
  {| a_action := "primary"; a_email := "nobody@example.org"; a_paper := "1" |}.

Definition rows_three : list pref_row :=
  [pref_line "1" "Ann" "A" "0" "20" "";
   pref_line "1" "Bob" "B" "0" "-5" "";
   pref_line "2" "Ann" "A" "0" "18" "";
   pref_line "2" "Bob" "B" "0" "0" "";
   pref_line "3" "Ann" "A" "0" "-20" "";
   pref_line "3" "Bob" "B" "0" "15" ""].

(* ===================================================================== *)
(** * The specification's wording, for comparison *)
(* ===================================================================== *)

(** What the three [print] calls before the tables are read write. *)
Definition header (opts : options) : string :=
  header_packages ++ nl
  ++ (if opt_black opts then "\colorfalse" else "\colortrue") ++ nl
  ++ header_macros ++ nl.

(** The raw scores of a reviewer, in the order of [papers]. *)
Definition observed_scores (st : tables) (name : string) : list Z :=
  omap (λ p, lookup2 (prefs st) p name) (keys (papers st)).

(** Those of them that are not tagged as a conflict. *)
Definition nonconflict_scores (st : tables) (name : string) : list Z :=
  omap (λ p, match lookup2 (prefs_type st) p name with
             | Some TagC => None
             | _ => lookup2 (prefs st) p name
             end)
       (keys (papers st)).



(** What the loops over the input files maintain. *)
Record tables_ok (st : tables) : Prop := {
  ok_prefs_dom : ∀ p, is_Some (prefs st !! p) ↔ p ∈ keys (papers st);
  ok_type_dom : ∀ p, is_Some (prefs_type st !! p) ↔ p ∈ keys (papers st);
  ok_assigned_dom : ∀ p, is_Some (assigned st !! p) ↔ p ∈ keys (papers st);
  ok_type_pref : ∀ p name,
    is_Some (lookup2 (prefs_type st) p name) ↔ is_Some (lookup2 (prefs st) p name);
  ok_conflict : ∀ p name,
    lookup2 (prefs_type st) p name = Some TagC → lookup2 (prefs st) p name = Some (-100);
  ok_pref_pc : ∀ p name,
    is_Some (lookup2 (prefs st) p name) → name ∈ keys (pc st);
  ok_papers_nodup : NoDup (keys (papers st));
  ok_pc_nodup : NoDup (keys (pc st))
}.

(** No character of the text is a closing brace. *)
Fixpoint no_close_brace (s : string) : bool :=
  match s with
  | EmptyString => true
  | String c s' => negb (Ascii.eqb c "}") && no_close_brace s'
  end.

(** The text of a cell that carries the conflict marker; [a] is the
    assignment marker. *)
Definition conflict_cell (a : string) : string := "\Prate" ++ a ++ "{-100}{C}".

(** The text of the cell of a non-conflict raw score of -100. *)
Definition minus_100_cell (a : string) : string := "\Prate" ++ a ++ "{-100}{-100}".

(** The assignment marker of a cell. *)
Definition assigned_marker (st : tables) (p name : string) : string :=
  if bool_decide (is_Some (lookup2 (assigned st) p name)) then "A" else "".

(** The positions and intensities of the papers for which a reviewer has
    a scaled entry, in the final paper order. *)
Definition scaled_entries (prefs_scaled : gmap string (gmap string Z))
    (sorted_papers : list string) (name : string) : list (nat * Z) :=
  omap (λ '(i, p), (λ v, (i, v)) <$> lookup2 prefs_scaled p name)
       (combine (seq 0 (length sorted_papers)) sorted_papers).

Definition Zsum (l : list Z) : Z := foldr Z.add 0 l.

Definition weighted_sum (es : list (nat * Z)) : Z :=
  Zsum (map (λ '(i, v), v * Z.of_nat i) es).

Definition intensity_sum (es : list (nat * Z)) : Z := Zsum (map snd es).

(** The affinity as the specification words it: the weighted average of
    the positions, and -1 for a reviewer without scaled entry. *)
Definition affinity_spec (prefs_scaled : gmap string (gmap string Z))
    (sorted_papers : list string) (name : string) : Q :=
  let es := scaled_entries prefs_scaled sorted_papers name in
  match es with
  | [] => (-1 # 1)%Q
  | _ => (inject_Z (weighted_sum es) / inject_Z (intensity_sum es))%Q
  end.





Definition valid_pair (n : nat) (ij : nat * nat) : Prop :=
  (fst ij < snd ij)%nat ∧ (snd ij < n)%nat.



(** Merging as the specification words it: the left-hand group is replaced
    by the concatenation, the right-hand group is removed. *)
Definition merged (groups : list (list string)) (i j : nat) : list (list string) :=
  <[i := (default [] (groups !! i) ++ default [] (groups !! j))%list]>
    (delete j groups).




(* ===================================================================== *)
(** * Further notions used to state what the script does *)
(* ===================================================================== *)

(** The elements of a list in the order of their first occurrence. *)
Fixpoint first_seen (l : list string) : list string :=
  match l with
  | [] => []
  | x :: l' => x :: filter (λ y, y ≠ x) (first_seen l')
  end.

(** A result that is not an exception. *)
Definition succeeds {A} (r : result A) : Prop := ∃ a, r = Ok a.

(** The keys after one more key is assigned. *)
Definition add_key (acc : list string) (x : string) : list string :=
  if decide (x ∈ acc) then acc else (acc ++ [x])%list.

(** The score text a row is read with when it is not a conflict. *)
Definition score_text (line : pref_row) : string :=
  if String.eqb (p_preference line) "" then p_topic_score line
  else p_preference line.

(** The reviewers are numbered from 1 in the order of [pc], and the email
    map and [pc] agree. *)
Definition reviewers_ok (st : tables) : Prop :=
  (∀ i name info, pc st !! i = Some (name, info) → num info = Z.of_nat i + 1)
  ∧ (∀ e name, email st !! e = Some name →
       ∃ info, odict_get (pc st) name = Some info ∧ pc_email info = e)
  ∧ (∀ name info, odict_get (pc st) name = Some info →
       is_Some (email st !! pc_email info)).


(** The scores of a reviewer that take part in the scaling. *)
Definition scored (st : tables) (name : string) : list Z :=
  filter (λ s, -100 < s) (observed_scores st name).

(** A preferences file with a score below the sentinel -100. *)
Definition rows_below : list pref_row :=
  [pref_line "1" "Ann" "A" "0" "-200" "";
   pref_line "2" "Ann" "A" "0" "7" ""].

(** Reading an escaped text back: the text after the prefix [k], the
    reserved character whose escape sequence opens the text, and the scan
    that undoes [latex_encode]; [fuel] bounds the number of characters
    read back. *)
Fixpoint strip_prefix (k text : string) : option string :=
  match k with
  | EmptyString => Some text
  | String a k' =>
      match text with
      | EmptyString => None
      | String b text' => if Ascii.eqb a b then strip_prefix k' text' else None
      end
  end.

Fixpoint unescape (table : list (string * string)) (text : string)
    : option (string * string) :=
  match table with
  | [] =>
      match text with
      | EmptyString => None
      | String c rest => Some (String c EmptyString, rest)
      end
  | (k, v) :: table' =>
      match strip_prefix v text with
      | Some rest => Some (k, rest)
      | None => unescape table' text
      end
  end.

Fixpoint latex_decode (fuel : nat) (text : string) : string :=
  match fuel with
  | O => EmptyString
  | S fuel' =>
      match unescape conv text with
      | Some (k, rest) => k ++ latex_decode fuel' rest
      | None => EmptyString
      end
  end.

(* ===================================================================== *)
(** * The command line *)
(* ===================================================================== *)

(** [o in (name, ...)]. *)
Definition in_tuple (o : string) (names : list string) : bool :=
  existsb (String.eqb o) names.

(** The loop over the pairs [(o, a)] that [getopt] returns: the three
    flags and [lengths_file]; [None] is the failed [assert False]. *)
Definition option_step (acc : options * option string) (oa : string * string)
    : option (options * option string) :=
  let '(flags, lengths_file) := acc in
  let '(o, a) := oa in
  if in_tuple o ["-s"; "--scale"] then
    Some ({| opt_black := opt_black flags; opt_scale := true;
             opt_order := opt_order flags |}, lengths_file)
  else if in_tuple o ["-b"; "--black"] then
    Some ({| opt_black := true; opt_scale := opt_scale flags;
             opt_order := opt_order flags |}, lengths_file)
  else if in_tuple o ["-o"; "--order"] then
    Some ({| opt_black := opt_black flags; opt_scale := opt_scale flags;
             opt_order := true |}, lengths_file)
  else if in_tuple o ["-l"; "--lengths"] then
    Some (flags, Some a)
  else None.

Fixpoint read_options (acc : options * option string)
    (opts : list (string * string)) : option (options * option string) :=
  match opts with
  | [] => Some acc
  | oa :: opts' =>
      match option_step acc oa with
      | Some acc' => read_options acc' opts'
      | None => None
      end
  end.

(** The values the options have before the loop. *)
Definition no_options : options * option string :=
  ({| opt_black := false; opt_scale := false; opt_order := false |}, None).

(** The option names [getopt] is called with. *)
Definition declared_options : list string :=
  ["-b"; "--black"; "-s"; "--scale"; "-o"; "--order"; "-l"; "--lengths"].

(** The arguments of the options [-l] and [--lengths], in order. *)
Definition lengths_arguments (opts : list (string * string)) : list string :=
  omap (λ oa, if in_tuple (fst oa) ["-l"; "--lengths"]
              then Some (snd oa) else None) opts.

(** Some option of [opts] has one of the [names]. *)
Definition given (names : list string) (opts : list (string * string)) : bool :=
  existsb (λ oa, in_tuple (fst oa) names) opts.

(* ===================================================================== *)
(** * Properties of [latex_encode] *)
(* ===================================================================== *)

Lemma match_alt_In alts text k :
  match_alt alts text = Some k → In k alts ∧ starts_with k text = true.
Proof.
  induction alts as [|a alts IH]; simpl; [discriminate|].
  destruct (starts_with a text) eqn:E.
  - intros [= <-]. auto.
  - intros Hk. destruct (IH Hk). auto.
Qed.

(** When the alternatives are listed by non-increasing length, the one
    that is chosen is a longest one among those that match. *)
Lemma match_alt_longest alts text k :
  StronglySorted (λ a b, (String.length b <= String.length a)%nat) alts →
  match_alt alts text = Some k →
  ∀ k', In k' alts → starts_with k' text = true →
        (String.length k' <= String.length k)%nat.
Proof.
  induction 1 as [|a alts Hs IH Hall]; simpl; [discriminate|].
  destruct (starts_with a text) eqn:E.
  - intros [= <-] k' [<-|Hin] _; [lia|].
    rewrite List.Forall_forall in Hall. by apply Hall.
  - intros Hk k' [<-|Hin] Hp; [congruence|]. by apply IH.
Qed.

Lemma conv_alts_sorted :
  StronglySorted (λ a b, (String.length b <= String.length a)%nat) conv_alts.
Proof.
  unfold conv_alts. vm_compute sorted.
  repeat (apply SSorted_cons; [|repeat (constructor; [simpl; lia|]); constructor]).
  apply SSorted_nil.
Qed.

Lemma conv_alts_keys k : In k conv_alts ↔ In k (map fst conv).
Proof. vm_compute. tauto. Qed.

Lemma prefix_single_char k c rest :
  In k conv_alts →
  starts_with k (String c rest) = starts_with k (String c EmptyString).
Proof.
  intros Hin. vm_compute in Hin.
  repeat (destruct Hin as [<-|Hin];
    [cbn [starts_with]; by rewrite !andb_true_r|]).
  destruct Hin.
Qed.

Lemma match_alt_single_char c rest :
  match_alt conv_alts (String c rest) = match_alt conv_alts (String c EmptyString).
Proof.
  assert (G : ∀ alts, (∀ k, In k alts → In k conv_alts) →
            match_alt alts (String c rest) = match_alt alts (String c EmptyString)).
  { induction alts as [|a alts IH]; intros Hsub; simpl; [done|].
    rewrite (prefix_single_char a c rest) by (apply Hsub; by left).
    destruct (starts_with a _); [done|]. apply IH. intros k Hk. apply Hsub. by right. }
  by apply G.
Qed.

Lemma match_alt_length_one text k :
  match_alt conv_alts text = Some k → String.length k = 1%nat.
Proof.
  intros Hk. apply match_alt_In in Hk as [Hin _]. vm_compute in Hin.
  repeat (destruct Hin as [<-|Hin]; [done|]). destruct Hin.
Qed.

Lemma latex_encode_cons c rest :
  latex_encode (String c rest) = escape_char c ++ latex_encode rest.
Proof.
  unfold latex_encode, escape_char. cbn [regex_sub].
  rewrite (match_alt_single_char c rest).
  destruct (match_alt conv_alts (String c EmptyString)) as [k|] eqn:E; [|done].
  by rewrite (match_alt_length_one _ _ E).
Qed.

Lemma latex_encode_clean text : clean text = true → latex_encode text = text.
Proof.
  induction text as [|c rest IH]; [done|].
  simpl clean. intros [Hc Hr]%andb_prop. rewrite latex_encode_cons, IH by done.
  unfold escape_char.
  destruct (match_alt conv_alts (String c EmptyString)) as [k|] eqn:E; [|done].
  exfalso. apply match_alt_In in E as [Hin Hp].
  apply negb_true_iff in Hc. revert Hc. vm_compute in Hin.
  repeat (destruct Hin as [<-|Hin];
    [cbn [starts_with] in Hp; rewrite andb_true_r in Hp;
     apply Ascii.eqb_eq in Hp as <-; by vm_compute|]).
  destruct Hin.
Qed.

(** C8, as stated, fails: an escape sequence that is encoded again is
    changed, so already-escaped input is escaped twice. *)
Lemma latex_encode_double_escapes :
  latex_encode (latex_encode "A&B_C") ≠ latex_encode "A&B_C"
  ∧ latex_encode "A&B_C" = "A\&B\_C"
  ∧ latex_encode "A\&B\_C" = "A\textbackslash{}\&B\textbackslash{}\_C".
Proof. vm_compute. repeat split; congruence. Qed.

(** C8 (amended): every reserved character is replaced by its escape
    sequence, text without reserved characters is returned unchanged, the
    alternative chosen at a position is a longest reserved key matching
    there, and an escape sequence is itself changed when encoded again. *)
Theorem latex_encode_spec (text text' k v m : string) :
  In (k, v) conv →
  clean text = true →
  match_alt conv_alts text' = Some m →
  (latex_encode k = v ∧ latex_encode v ≠ v)
  ∧ latex_encode text = text
  ∧ (In m (map fst conv) ∧ starts_with m text' = true ∧
     ∀ k', In k' (map fst conv) → starts_with k' text' = true →
           (String.length k' <= String.length m)%nat).
Proof.
  intros Hin Hclean Hm. split; [|split].
  - vm_compute in Hin.
    repeat (destruct Hin as [[= <- <-]|Hin]; [by vm_compute|]). destruct Hin.
  - by apply latex_encode_clean.
  - destruct (match_alt_In _ _ _ Hm) as [Hin' Hp].
    split; [by apply conv_alts_keys|]. split; [done|].
    intros k' Hk' Hp'. eapply match_alt_longest; eauto using conv_alts_sorted.
Qed.

Lemma latex_encode_spec_witness :
  In ("~", "\textasciitilde{}") conv
  ∧ clean "Title 1" = true
  ∧ match_alt conv_alts "_b" = Some "_"
  ∧ (latex_encode "~" = "\textasciitilde{}"
     ∧ latex_encode "\textasciitilde{}" ≠ "\textasciitilde{}")
  ∧ latex_encode "Title 1" = "Title 1"
  ∧ (In "_" (map fst conv) ∧ starts_with "_" "_b" = true ∧
     ∀ k', In k' (map fst conv) → starts_with k' "_b" = true →
           (String.length k' <= String.length "_")%nat).
Proof.
  assert (H1 : In ("~", "\textasciitilde{}") conv) by (vm_compute; tauto).
  assert (H2 : clean "Title 1" = true) by reflexivity.
  assert (H3 : match_alt conv_alts "_b" = Some "_") by reflexivity.
  split; [exact H1|]. split; [exact H2|]. split; [exact H3|].
  exact (latex_encode_spec "Title 1" "_b" "~" "\textasciitilde{}" "_" H1 H2 H3).
Defined.

(* ===================================================================== *)
(** * Dictionaries *)
(* ===================================================================== *)

Lemma result_bind_Ok {A B} (m : result A) (f : A → result B) b :
  m ≫= f = Ok b → ∃ a, m = Ok a ∧ f a = Ok b.
Proof. destruct m as [a|e]; [eauto|discriminate]. Qed.

Lemma lookup2_setitem2_eq {V} (d : gmap string (gmap string V)) p name v :
  lookup2 (setitem2 d p name v) p name = Some v.
Proof. unfold lookup2, setitem2. rewrite lookup_insert_eq. simpl. apply lookup_insert_eq. Qed.

Lemma lookup2_setitem2_ne {V} (d : gmap string (gmap string V)) p name v p' name' :
  (p, name) ≠ (p', name') →
  lookup2 (setitem2 d p name v) p' name' = lookup2 d p' name'.
Proof.
  intros Hne. unfold lookup2, setitem2.
  destruct (decide (p = p')) as [<-|Hp].
  - rewrite lookup_insert_eq. simpl.
    rewrite lookup_insert_ne by congruence.
    by destruct (d !! p).
  - by rewrite lookup_insert_ne.
Qed.

Lemma lookup2_insert_empty {V} (d : gmap string (gmap string V)) p p' name :
  d !! p = None → lookup2 (<[p := ∅]> d) p' name = lookup2 d p' name.
Proof.
  intros Hp. unfold lookup2. destruct (decide (p = p')) as [<-|Hne].
  - by rewrite lookup_insert_eq, Hp.
  - by rewrite lookup_insert_ne.
Qed.

Lemma odict_get_set_eq {V} (d : list (string * V)) k v :
  odict_get (odict_set d k v) k = Some v.
Proof.
  unfold odict_get. induction d as [|[k' v'] d IH]; simpl.
  - by rewrite String.eqb_refl.
  - destruct (String.eqb k' k) eqn:E; simpl.
    + by rewrite String.eqb_refl.
    + by rewrite E.
Qed.

Lemma odict_get_set_ne {V} (d : list (string * V)) k v k' :
  k ≠ k' → odict_get (odict_set d k v) k' = odict_get d k'.
Proof.
  intros Hne. unfold odict_get. induction d as [|[k0 v0] d IH]; simpl.
  - by apply String.eqb_neq in Hne as ->.
  - destruct (String.eqb k0 k) eqn:E; simpl.
    + apply String.eqb_eq in E as ->. by apply String.eqb_neq in Hne as ->.
    + destruct (String.eqb k0 k'); [done|]. apply IH.
Qed.

Lemma odict_get_Some_keys {V} (d : list (string * V)) k :
  is_Some (odict_get d k) ↔ k ∈ keys d.
Proof.
  unfold odict_get, keys. induction d as [|[k0 v0] d IH]; simpl.
  - split; [by intros [? ?]|by intros ?%elem_of_nil].
  - destruct (String.eqb_spec k0 k) as [->|Hne]; simpl.
    + split; [intros _; by left|eauto].
    + rewrite IH, elem_of_cons. split; [auto|]. by intros [->|?].
Qed.

Lemma keys_odict_set_new {V} (d : list (string * V)) k v :
  odict_get d k = None → keys (odict_set d k v) = (keys d ++ [k])%list.
Proof.
  unfold odict_get, keys. induction d as [|[k0 v0] d IH]; simpl; [done|].
  destruct (String.eqb k0 k) eqn:E; simpl; [discriminate|].
  intros H. by rewrite IH.
Qed.

Lemma keys_odict_set_old {V} (d : list (string * V)) k v :
  is_Some (odict_get d k) → keys (odict_set d k v) = keys d.
Proof.
  unfold odict_get, keys. induction d as [|[k0 v0] d IH]; simpl.
  - by intros [? ?].
  - destruct (String.eqb_spec k0 k) as [->|Hne]; simpl; [done|].
    intros H. by rewrite IH.
Qed.

(* ===================================================================== *)
(** * The loader *)
(* ===================================================================== *)

Lemma empty_tables_ok : tables_ok empty_tables.
Proof.
  assert (E : ∀ V (p : string), is_Some ((∅ : gmap string V) !! p) ↔ p ∈ @nil string).
  { intros V p. rewrite lookup_empty, elem_of_nil. split; [by intros [? ?]|done]. }
  split; simpl; try apply E; try apply NoDup_nil_2.
  - intros p name. unfold lookup2. rewrite !lookup_empty. simpl.
    split; by intros [? ?].
  - intros p name. unfold lookup2. rewrite !lookup_empty. by simpl.
  - intros p name. unfold lookup2. rewrite !lookup_empty. by intros [? ?].
Qed.

Lemma signal_conflict line score :
  signal line = (score, TagC) → score = "-100".
Proof.
  unfold signal.
  destruct (negb _), (String.eqb (p_conflict line) "conflict"); by intros [= <-].
Qed.

Lemma int_minus_100 : int "-100" = Ok (-100).
Proof. reflexivity. Qed.

Lemma process_pref_inv st line st' :
  process_pref st line = Ok st' →
  let known := bool_decide (is_Some (odict_get (papers st) (p_paper line))) in
  let seen := bool_decide (is_Some (odict_get (pc st) (reviewer_name line))) in
  ∃ n, int (fst (signal line)) = Ok n
    ∧ papers st' = (if known then papers st
                    else odict_set (papers st) (p_paper line)
                           {| title := p_title line; n_pages := 20 |})
    ∧ pc st' = (if seen then pc st
                else odict_set (pc st) (reviewer_name line)
                       {| num := Z.of_nat (length (pc st)) + 1;
                          pc_email := p_email line;
                          pc_min := None; pc_max := None |})
    ∧ prefs st' = setitem2 (if known then prefs st else <[p_paper line := ∅]> (prefs st))
                    (p_paper line) (reviewer_name line) n
    ∧ prefs_type st' = setitem2 (if known then prefs_type st
                                 else <[p_paper line := ∅]> (prefs_type st))
                         (p_paper line) (reviewer_name line) (snd (signal line))
    ∧ assigned st' = (if known then assigned st else <[p_paper line := ∅]> (assigned st))
    ∧ email st' = (if seen then email st
                   else <[p_email line := reviewer_name line]> (email st)).
Proof.
  unfold process_pref. destruct (signal line) as [score ty]. simpl.
  destruct (int score) as [n|e]; simpl; [|discriminate].
  intros [= <-]. exists n. simpl. repeat split.
Qed.

(** Whether the paper of the row was known or not, the entries of the
    other pairs are as before once the row is processed. *)
Lemma lookup2_known {V} (d : gmap string (gmap string V)) (b : bool) p p' name :
  (b = false → d !! p = None) →
  lookup2 (if b then d else <[p := ∅]> d) p' name = lookup2 d p' name.
Proof. destruct b; [done|]. intros H. by apply lookup2_insert_empty, H. Qed.

Lemma process_pref_lookup st line st' :
  tables_ok st → process_pref st line = Ok st' →
  ∃ n, int (fst (signal line)) = Ok n ∧
    ∀ p name,
      lookup2 (prefs st') p name =
        (if decide ((p_paper line, reviewer_name line) = (p, name)) then Some n
         else lookup2 (prefs st) p name)
      ∧ lookup2 (prefs_type st') p name =
        (if decide ((p_paper line, reviewer_name line) = (p, name))
         then Some (snd (signal line))
         else lookup2 (prefs_type st) p name).
Proof.
  intros Hok Hst.
  destruct (process_pref_inv _ _ _ Hst) as (n & Hn & _ & _ & Hprefs & Htype & _).
  exists n. split; [done|]. intros p name. rewrite Hprefs, Htype.
  assert (Hnew : ∀ V (d : gmap string (gmap string V)),
            (∀ q, is_Some (d !! q) ↔ q ∈ keys (papers st)) →
            bool_decide (is_Some (odict_get (papers st) (p_paper line))) = false →
            d !! p_paper line = None).
  { intros V d Hdom Hb. apply bool_decide_eq_false in Hb.
    rewrite odict_get_Some_keys in Hb.
    destruct (d !! p_paper line) eqn:E; [|done].
    exfalso. apply Hb, Hdom. rewrite E. eauto. }
  case_decide as Heq.
  - injection Heq as <- <-. by rewrite !lookup2_setitem2_eq.
  - rewrite !lookup2_setitem2_ne by done.
    rewrite !lookup2_known; [done| |].
    + apply Hnew, Hok.
    + apply Hnew, Hok.
Qed.

Lemma process_pref_ok st line st' :
  tables_ok st → process_pref st line = Ok st' → tables_ok st'.
Proof.
  intros Hok Hst.
  destruct (process_pref_lookup _ _ _ Hok Hst) as (n & Hn & Hlk).
  destruct (process_pref_inv _ _ _ Hst)
    as (n' & _ & Hpapers & Hpc & Hprefs & Htype & Hassigned & _).
  assert (Hkeys : ∀ q, q ∈ keys (papers st') ↔ q = p_paper line ∨ q ∈ keys (papers st)).
  { intros q. rewrite Hpapers.
    destruct (bool_decide_reflect (is_Some (odict_get (papers st) (p_paper line)))) as [Hk|Hk].
    - split; [auto|]. intros [->|?]; [|done]. by apply odict_get_Some_keys.
    - rewrite keys_odict_set_new, elem_of_app, list_elem_of_singleton.
      + tauto.
      + destruct (odict_get (papers st) (p_paper line)) eqn:E; [|done].
        exfalso. apply Hk. eauto. }
  assert (Hpckeys : ∀ q, q ∈ keys (pc st') ↔ q = reviewer_name line ∨ q ∈ keys (pc st)).
  { intros q. rewrite Hpc.
    destruct (bool_decide_reflect (is_Some (odict_get (pc st) (reviewer_name line)))) as [Hk|Hk].
    - split; [auto|]. intros [->|?]; [|done]. by apply odict_get_Some_keys.
    - rewrite keys_odict_set_new, elem_of_app, list_elem_of_singleton.
      + tauto.
      + destruct (odict_get (pc st) (reviewer_name line)) eqn:E; [|done].
        exfalso. apply Hk. eauto. }
  assert (Hdom : ∀ V (d : gmap string (gmap string V)) name (v : V) q,
            (∀ q, is_Some (d !! q) ↔ q ∈ keys (papers st)) →
            is_Some (setitem2
                       (if bool_decide (is_Some (odict_get (papers st) (p_paper line)))
                        then d else <[p_paper line := ∅]> d)
                       (p_paper line) name v !! q)
            ↔ q ∈ keys (papers st')).
  { intros V d name v q Hd. rewrite Hkeys. unfold setitem2.
    destruct (decide (p_paper line = q)) as [<-|Hne].
    - rewrite lookup_insert_eq. split; eauto.
    - rewrite lookup_insert_ne by done.
      destruct (bool_decide_reflect (is_Some (odict_get (papers st) (p_paper line)))).
      + rewrite Hd. split; [auto|]. by intros [->|?].
      + rewrite lookup_insert_ne by done. rewrite Hd.
        split; [auto|]. by intros [->|?]. }
  split.
  - intros q. rewrite Hprefs. apply Hdom, Hok.
  - intros q. rewrite Htype. apply Hdom, Hok.
  - intros q. rewrite Hassigned, Hkeys.
    destruct (bool_decide_reflect (is_Some (odict_get (papers st) (p_paper line)))) as [Hk|Hk].
    + rewrite (ok_assigned_dom _ Hok). split; [auto|]. intros [->|?]; [|done].
      by apply odict_get_Some_keys.
    + destruct (decide (p_paper line = q)) as [<-|Hne].
      * rewrite lookup_insert_eq. split; eauto.
      * rewrite lookup_insert_ne by done. rewrite (ok_assigned_dom _ Hok).
        split; [auto|]. by intros [->|?].
  - intros p name. destruct (Hlk p name) as [-> ->].
    case_decide; [split; eauto|]. apply Hok.
  - intros p name. destruct (Hlk p name) as [-> ->].
    case_decide.
    + intros [= Hty]. destruct (signal line) as [score ty] eqn:Hs. simpl in *.
      subst ty. apply signal_conflict in Hs as ->.
      rewrite int_minus_100 in Hn. by injection Hn as <-.
    + apply Hok.
  - intros p name. destruct (Hlk p name) as [-> _]. rewrite Hpckeys.
    case_decide as Heq.
    + injection Heq as _ <-. auto.
    + intros H. right. by eapply ok_pref_pc.
  - rewrite Hpapers.
    destruct (bool_decide_reflect (is_Some (odict_get (papers st) (p_paper line)))) as [Hk|Hk];
      [apply Hok|].
    rewrite keys_odict_set_new.
    + apply NoDup_app. split; [apply Hok|]. split; [|apply NoDup_singleton].
      intros q Hq ->%list_elem_of_singleton. apply Hk. by apply odict_get_Some_keys.
    + destruct (odict_get (papers st) (p_paper line)) eqn:E; [|done].
      exfalso. apply Hk. eauto.
  - rewrite Hpc.
    destruct (bool_decide_reflect (is_Some (odict_get (pc st) (reviewer_name line)))) as [Hk|Hk];
      [apply Hok|].
    rewrite keys_odict_set_new.
    + apply NoDup_app. split; [apply Hok|]. split; [|apply NoDup_singleton].
      intros q Hq ->%list_elem_of_singleton. apply Hk. by apply odict_get_Some_keys.
    + destruct (odict_get (pc st) (reviewer_name line)) eqn:E; [|done].
      exfalso. apply Hk. eauto.
Qed.

Lemma for_each_invariant {A S} (body : S → A → result S) (I : S → Prop) l :
  (∀ s x s', I s → body s x = Ok s' → I s') →
  ∀ s s', I s → for_each body s l = Ok s' → I s'.
Proof.
  intros Hstep. induction l as [|x l IH]; simpl; intros s s' Hs.
  - by intros [= <-].
  - intros (s1 & H1 & H2)%result_bind_Ok. eauto.
Qed.

Lemma process_prefs_ok rows st : process_prefs rows = Ok st → tables_ok st.
Proof.
  apply (for_each_invariant process_pref tables_ok).
  - intros s x s'. apply process_pref_ok.
  - apply empty_tables_ok.
Qed.

Lemma for_each_app {A S} (body : S → A → result S) s (l1 l2 : list A) :
  for_each body s (l1 ++ l2)%list
  = for_each body s l1 ≫= λ s', for_each body s' l2.
Proof.
  revert s. induction l1 as [|x l1 IH]; intros s; simpl; [done|].
  destruct (body s x) as [s1|e]; simpl; [apply IH|done].
Qed.

(** Rows for other pairs leave the entry of a pair as it is. *)
Lemma process_prefs_other_pairs rows p name : ∀ st st',
  tables_ok st →
  (∀ l, l ∈ rows → (p_paper l, reviewer_name l) ≠ (p, name)) →
  for_each process_pref st rows = Ok st' →
  lookup2 (prefs st') p name = lookup2 (prefs st) p name
  ∧ lookup2 (prefs_type st') p name = lookup2 (prefs_type st) p name.
Proof.
  induction rows as [|l rows IH]; simpl; intros st st' Hok Hne.
  - by intros [= <-].
  - intros (s1 & H1 & H2)%result_bind_Ok.
    destruct (process_pref_lookup _ _ _ Hok H1) as (n & _ & Hlk).
    destruct (Hlk p name) as [E1 E2].
    rewrite decide_False in E1 by (apply Hne; by left).
    rewrite decide_False in E2 by (apply Hne; by left).
    destruct (IH s1 st') as [-> ->]; eauto using process_pref_ok.
    intros l' Hl'. apply Hne. by right.
Qed.

Lemma signal_precedence line :
  snd (signal line) =
    if String.eqb (p_conflict line) "conflict" then TagC
    else if String.eqb (p_preference line) "" then TagT
    else TagP.
Proof.
  unfold signal.
  by destruct (String.eqb (p_conflict line) "conflict"),
              (String.eqb (p_preference line) "").
Qed.

(** C6, as stated, fails: a conflict row followed by a plain row for the
    same pair leaves the pair tagged as topic affinity. *)
Lemma conflict_depends_on_row_order :
  ¬ (∀ rows st line,
       process_prefs rows = Ok st → line ∈ rows →
       p_conflict line = "conflict" →
       lookup2 (prefs_type st) (p_paper line) (reviewer_name line) = Some TagC).
Proof.
  intros H.
  pose (rows := [pref_line "1" "Ann" "A" "5" "" "conflict";
                 pref_line "1" "Ann" "A" "5" "" ""]).
  destruct (process_prefs rows) as [st|e] eqn:E; [|by vm_compute in E].
  assert (Hc : lookup2 (prefs_type st) "1" "Ann A" = Some TagC).
  { apply (H rows st (pref_line "1" "Ann" "A" "5" "" "conflict") E); [by left|done]. }
  assert (Hty : lookup2 (prefs_type st) "1" "Ann A" = Some TagT).
  { vm_compute in E. injection E as <-. by vm_compute. }
  congruence.
Qed.

(** C6 (amended): for every pair the recorded kind and score are those of
    the last row for that pair; within that row a conflict takes precedence
    over a preference, and a preference over the topic score; and a pair
    tagged as conflict has the raw score -100. *)
Theorem last_row_precedence (rows1 rows2 : list pref_row) (line : pref_row)
    (st : tables) :
  process_prefs (rows1 ++ line :: rows2) = Ok st →
  (∀ l, l ∈ rows2 →
        (p_paper l, reviewer_name l) ≠ (p_paper line, reviewer_name line)) →
  lookup2 (prefs_type st) (p_paper line) (reviewer_name line)
    = Some (if String.eqb (p_conflict line) "conflict" then TagC
            else if String.eqb (p_preference line) "" then TagT
            else TagP)
  ∧ Ok <$> lookup2 (prefs st) (p_paper line) (reviewer_name line)
    = Some (int (fst (signal line)))
  ∧ (∀ p name, lookup2 (prefs_type st) p name = Some TagC →
               lookup2 (prefs st) p name = Some (-100)).
Proof.
  intros Hst Hlast. split; [|split].
  3: { intros p name. by apply (ok_conflict _ (process_prefs_ok _ _ Hst)). }
  all: unfold process_prefs in Hst; rewrite for_each_app in Hst;
    apply result_bind_Ok in Hst as (s1 & H1 & H2); simpl in H2;
    apply result_bind_Ok in H2 as (s2 & H2 & H3);
    pose proof (process_prefs_ok _ _ H1) as Hok1;
    pose proof (process_pref_ok _ _ _ Hok1 H2) as Hok2;
    destruct (process_pref_lookup _ _ _ Hok1 H2) as (n & Hn & Hlk);
    destruct (Hlk (p_paper line) (reviewer_name line)) as [E1 E2];
    rewrite decide_True in E1 by done; rewrite decide_True in E2 by done;
    destruct (process_prefs_other_pairs _ _ _ _ _ Hok2 Hlast H3) as [F1 F2].
  - by rewrite F2, E2, signal_precedence.
  - by rewrite F1, E1, Hn.
Qed.

Lemma last_row_precedence_witness :
  ∃ st,
    process_prefs ([pref_line "1" "Ann" "A" "5" "" "conflict"]
                   ++ pref_line "1" "Ann" "A" "5" "7" ""
                   :: [pref_line "2" "Ann" "A" "3" "" ""]) = Ok st
    ∧ (∀ l, l ∈ [pref_line "2" "Ann" "A" "3" "" ""] →
            (p_paper l, reviewer_name l) ≠ ("1", "Ann A"))
    ∧ lookup2 (prefs_type st) "1" "Ann A" = Some TagP
    ∧ Ok <$> lookup2 (prefs st) "1" "Ann A" = Some (Ok 7)
    ∧ (∀ p name, lookup2 (prefs_type st) p name = Some TagC →
                 lookup2 (prefs st) p name = Some (-100)).
Proof.
  destruct (process_prefs ([pref_line "1" "Ann" "A" "5" "" "conflict"]
                   ++ pref_line "1" "Ann" "A" "5" "7" ""
                   :: [pref_line "2" "Ann" "A" "3" "" ""])) as [st|e] eqn:E;
    [|by vm_compute in E].
  assert (H : ∀ l, l ∈ [pref_line "2" "Ann" "A" "3" "" ""] →
            (p_paper l, reviewer_name l) ≠ ("1", "Ann A")).
  { intros l ->%list_elem_of_singleton. by vm_compute. }
  exists st. split; [done|]. split; [exact H|].
  exact (last_row_precedence _ _ _ st E H).
Defined.

(* ===================================================================== *)
(** * Scaling *)
(* ===================================================================== *)

Lemma scale_Ok raw mn mx :
  mn ≠ mx →
  scale raw mn mx = Ok (Z.max 0 (Z.min 100 (Z.quot (100 * (raw - mn)) (mx - mn)))).
Proof.
  intros Hne. unfold scale.
  destruct (Z.eqb_spec (mx - mn) 0); [lia|].
  f_equal. repeat case_match; lia.
Qed.

Lemma scale_degenerate raw mn : scale raw mn mn = Raise ZeroDivisionError.
Proof. unfold scale. by rewrite Z.sub_diag. Qed.

Lemma scale_inv raw mn mx v :
  scale raw mn mx = Ok v →
  mn ≠ mx ∧ v = Z.max 0 (Z.min 100 (Z.quot (100 * (raw - mn)) (mx - mn))).
Proof.
  intros H. destruct (decide (mn = mx)) as [->|Hne].
  - by rewrite scale_degenerate in H.
  - rewrite scale_Ok in H by done. by injection H as <-.
Qed.


(** The inner loop: the row of scaled preferences of one paper. *)
Lemma scaled_row_sound prefs p pcs : ∀ row0 row name v,
  for_each (scaled_step prefs p) row0 pcs = Ok row →
  row !! name = Some v →
  row0 !! name = Some v
  ∨ ∃ info raw mn mx,
      (name, info) ∈ pcs ∧ lookup2 prefs p name = Some raw ∧ -100 < raw
      ∧ pc_min info = Some mn ∧ pc_max info = Some mx
      ∧ scale raw mn mx = Ok v.
Proof.
  induction pcs as [|[name' info] pcs IH]; simpl; intros row0 row name v.
  - intros [= <-]. auto.
  - intros (row1 & H1 & H2)%result_bind_Ok Hv.
    destruct (IH _ _ _ _ H2 Hv) as [Hrow1|(i & raw & mn & mx & Hin & ?)].
    2: { right. exists i, raw, mn, mx. split; [by right|done]. }
    destruct (lookup2 prefs p name') as [raw|] eqn:Hraw.
    2: { injection H1 as <-. auto. }
    destruct (Z.ltb_spec (-100) raw) as [Hlt|Hge].
    2: { injection H1 as <-. auto. }
    apply result_bind_Ok in H1 as (mn & Hmn & H1).
    apply result_bind_Ok in H1 as (mx & Hmx & H1).
    apply result_bind_Ok in H1 as (w & Hw & H1).
    injection H1 as <-.
    destruct (decide (name' = name)) as [->|Hne].
    + rewrite lookup_insert_eq in Hrow1. injection Hrow1 as <-.
      right. exists info, raw, mn, mx. split; [by left|].
      destruct (pc_min info), (pc_max info); try discriminate.
      injection Hmn as <-. injection Hmx as <-. done.
    + rewrite lookup_insert_ne in Hrow1 by done. auto.
Qed.

Lemma scaled_row_complete prefs p pcs : ∀ row0 row name info raw,
  NoDup (keys pcs) →
  for_each (scaled_step prefs p) row0 pcs = Ok row →
  (name, info) ∈ pcs → lookup2 prefs p name = Some raw → -100 < raw →
  ∃ mn mx v, pc_min info = Some mn ∧ pc_max info = Some mx
             ∧ scale raw mn mx = Ok v ∧ row !! name = Some v.
Proof.
  induction pcs as [|[name' info'] pcs IH]; simpl;
    intros row0 row name info raw Hnd Hrow Hin Hraw Hlt.
  - by apply elem_of_nil in Hin.
  - apply NoDup_cons in Hnd as [Hnotin Hnd].
    apply result_bind_Ok in Hrow as (row1 & H1 & H2).
    apply elem_of_cons in Hin as [[= <- <-]|Hin]; [|by eapply IH].
    rewrite Hraw in H1. destruct (Z.ltb_spec (-100) raw); [|lia].
    apply result_bind_Ok in H1 as (mn & Hmn & H1).
    apply result_bind_Ok in H1 as (mx & Hmx & H1).
    apply result_bind_Ok in H1 as (w & Hw & H1).
    injection H1 as <-.
    exists mn, mx, w.
    destruct (pc_min info), (pc_max info); try discriminate.
    injection Hmn as <-. injection Hmx as <-. repeat split; [done|].
    destruct (row !! name) as [v|] eqn:Hv.
    + destruct (scaled_row_sound _ _ _ _ _ _ _ H2 Hv)
        as [Hrow1|(i & _ & _ & _ & Hi & _)].
      * by rewrite lookup_insert_eq in Hrow1.
      * exfalso. apply Hnotin. unfold keys.
        apply list_elem_of_fmap. by exists (name, i).
    + exfalso. clear -H2 Hv.
      assert (G : ∀ pcs r0 r, for_each (scaled_step prefs p) r0 pcs = Ok r →
                  is_Some (r0 !! name) → is_Some (r !! name)).
      { clear. induction pcs as [|[n i] pcs IH]; simpl; intros r0 r.
        - by intros [= <-].
        - intros (r1 & H1 & H2)%result_bind_Ok Hr0. apply (IH _ _ H2).
          destruct (lookup2 prefs p n) as [raw|]; [|by injection H1 as <-].
          destruct (-100 <? raw); [|by injection H1 as <-].
          apply result_bind_Ok in H1 as (mn & _ & H1).
          apply result_bind_Ok in H1 as (mx & _ & H1).
          apply result_bind_Ok in H1 as (w & _ & H1). injection H1 as <-.
          rewrite lookup_insert. case_decide; eauto. }
      apply G in H2; [|rewrite lookup_insert_eq; eauto].
      rewrite Hv in H2. by destruct H2.
Qed.

(** The row loop succeeds when no reviewer with a score to scale has a
    range of width zero. *)
Lemma scaled_row_total prefs p pcs : ∀ row0,
  (∀ name info raw, (name, info) ∈ pcs → lookup2 prefs p name = Some raw →
     -100 < raw →
     ∃ mn mx, pc_min info = Some mn ∧ pc_max info = Some mx ∧ mn ≠ mx) →
  ∃ row, for_each (scaled_step prefs p) row0 pcs = Ok row.
Proof.
  induction pcs as [|[name info] pcs IH]; simpl; intros row0 Hall; [eauto|].
  assert (Hrest : ∀ row1, ∃ row, for_each (scaled_step prefs p) row1 pcs = Ok row).
  { intros row1. apply IH. intros n i raw Hin. apply Hall. by right. }
  destruct (lookup2 prefs p name) as [raw|] eqn:Hraw; [|apply Hrest].
  destruct (Z.ltb_spec (-100) raw) as [Hlt|Hge]; [|apply Hrest].
  destruct (Hall name info raw) as (mn & mx & -> & -> & Hne); [by left|done|done|].
  simpl. rewrite scale_Ok by done. simpl. apply Hrest.
Qed.

(** The outer loop: one row per paper. *)
Lemma compute_prefs_scaled_rows prefs pcs papers :
  ∀ (tbl0 tbl : gmap string (gmap string Z)) p,
  for_each (λ tbl p, row ← for_each (scaled_step prefs p) ∅ pcs;
                     Ok (<[p := row]> tbl)) tbl0 papers = Ok tbl →
  (p ∈ papers → ∃ row, tbl !! p = Some row
                       ∧ for_each (scaled_step prefs p) ∅ pcs = Ok row)
  ∧ (p ∉ papers → tbl !! p = tbl0 !! p).
Proof.
  induction papers as [|q papers IH]; simpl; intros tbl0 tbl p.
  - intros [= <-]. split; [by intros ?%elem_of_nil|done].
  - intros (tbl1 & H1 & H2)%result_bind_Ok.
    apply result_bind_Ok in H1 as (row & Hrow & H1). injection H1 as <-.
    destruct (IH _ _ p H2) as [Hin Hout]. split.
    + intros Hp. destruct (decide (p ∈ papers)) as [|Hnot]; [auto|].
      apply elem_of_cons in Hp as [->|Hp]; [|done].
      exists row. by rewrite (Hout Hnot), lookup_insert_eq.
    + intros Hp. apply not_elem_of_cons in Hp as [Hne Hp].
      by rewrite (Hout Hp), lookup_insert_ne.
Qed.

Lemma compute_prefs_scaled_sound prefs papers pcs tbl p name v :
  compute_prefs_scaled prefs papers pcs = Ok tbl →
  lookup2 tbl p name = Some v →
  p ∈ papers
  ∧ ∃ info raw mn mx,
      (name, info) ∈ pcs ∧ lookup2 prefs p name = Some raw ∧ -100 < raw
      ∧ pc_min info = Some mn ∧ pc_max info = Some mx
      ∧ scale raw mn mx = Ok v.
Proof.
  intros Htbl Hv. destruct (compute_prefs_scaled_rows _ _ _ _ _ p Htbl) as [Hin Hout].
  unfold lookup2 in Hv. destruct (decide (p ∈ papers)) as [Hp|Hp].
  - split; [done|]. destruct (Hin Hp) as (row & Hrow & Hloop).
    rewrite Hrow in Hv. simpl in Hv.
    destruct (scaled_row_sound _ _ _ _ _ _ _ Hloop Hv) as [Hempty|?]; [|done].
    by rewrite lookup_empty in Hempty.
  - rewrite (Hout Hp), lookup_empty in Hv. discriminate.
Qed.

Lemma compute_prefs_scaled_complete prefs papers pcs tbl p name info raw :
  NoDup (keys pcs) →
  compute_prefs_scaled prefs papers pcs = Ok tbl →
  p ∈ papers → (name, info) ∈ pcs → lookup2 prefs p name = Some raw →
  -100 < raw →
  ∃ mn mx v, pc_min info = Some mn ∧ pc_max info = Some mx
             ∧ scale raw mn mx = Ok v ∧ lookup2 tbl p name = Some v.
Proof.
  intros Hnd Htbl Hp Hin Hraw Hlt.
  destruct (compute_prefs_scaled_rows _ _ _ _ _ p Htbl) as [Hrows _].
  destruct (Hrows Hp) as (row & Hrow & Hloop).
  destruct (scaled_row_complete _ _ _ _ _ _ _ _ Hnd Hloop Hin Hraw Hlt)
    as (mn & mx & v & ? & ? & ? & ?).
  exists mn, mx, v. unfold lookup2. rewrite Hrow. done.
Qed.

Lemma compute_prefs_scaled_total prefs papers pcs :
  (∀ p name info raw, p ∈ papers → (name, info) ∈ pcs →
     lookup2 prefs p name = Some raw → -100 < raw →
     ∃ mn mx, pc_min info = Some mn ∧ pc_max info = Some mx ∧ mn ≠ mx) →
  ∃ tbl, compute_prefs_scaled prefs papers pcs = Ok tbl.
Proof.
  unfold compute_prefs_scaled. generalize (∅ : gmap string (gmap string Z)).
  induction papers as [|p papers IH]; simpl; intros tbl0 Hall; [eauto|].
  destruct (scaled_row_total prefs p pcs ∅) as [row ->].
  { intros name info raw. apply Hall. by left. }
  simpl. apply IH. intros q name info raw Hq. apply Hall. by right.
Qed.

(** Every intensity that is stored lies in [0, 100]. *)
Lemma prefs_scaled_range prefs papers pcs tbl p name v :
  compute_prefs_scaled prefs papers pcs = Ok tbl →
  lookup2 tbl p name = Some v → 0 <= v <= 100.
Proof.
  intros Htbl Hv.
  destruct (compute_prefs_scaled_sound _ _ _ _ _ _ _ Htbl Hv)
    as (_ & info & raw & mn & mx & _ & _ & _ & _ & _ & Hs).
  apply scale_inv in Hs as [_ ->]. lia.
Qed.




(** C4, the failing input: with [--scale], a reviewer whose scores are all
    0 gets the range [0, 0], and scaling the score divides by zero.  The
    run stops after the header with [ZeroDivisionError]. *)
Theorem degenerate_range_is_fatal :
  process_prefs [pref_line "1" "Ann" "A" "0" "" ""]
    = Ok (loaded [pref_line "1" "Ann" "A" "0" "" ""])
  ∧ individual_minmax (loaded [pref_line "1" "Ann" "A" "0" "" ""]) "Ann A" = (0, 0)
  ∧ compute_prefs_scaled (prefs (loaded [pref_line "1" "Ann" "A" "0" "" ""]))
      (keys (papers (loaded [pref_line "1" "Ann" "A" "0" "" ""])))
      (compute_bounds true (loaded [pref_line "1" "Ann" "A" "0" "" ""]))
    = Raise ZeroDivisionError
  ∧ run scale_options [pref_line "1" "Ann" "A" "0" "" ""] None None
    = (header scale_options, Raise ZeroDivisionError).
Proof. repeat split; by vm_compute. Qed.

(* ===================================================================== *)
(** * Scaling bounds *)
(* ===================================================================== *)

Lemma keys_compute_bounds b st : keys (compute_bounds b st) = keys (pc st).
Proof.
  unfold compute_bounds, keys. rewrite map_map. apply map_ext.
  intros [name info]. destruct b; [|done]. by destruct (individual_minmax st name).
Qed.

Lemma elem_of_compute_bounds b st name info' :
  (name, info') ∈ compute_bounds b st ↔
  ∃ info, (name, info) ∈ pc st
          ∧ info' = set_bounds info
                      (if b then fst (individual_minmax st name) else -20)
                      (if b then snd (individual_minmax st name) else 20).
Proof.
  unfold compute_bounds. rewrite list_elem_of_fmap. split.
  - intros ([n i] & Heq & Hin). exists i. destruct b.
    + destruct (individual_minmax st n) as [mn mx] eqn:E.
      injection Heq as -> ->. by rewrite E.
    + by injection Heq as -> ->.
  - intros (info & Hin & ->). exists (name, info). split; [|done].
    destruct b; [|done]. by destruct (individual_minmax st name).
Qed.

(** One step of the loop keeps the accumulators when the paper has no
    score above -100 for the reviewer and widens them otherwise. *)
Lemma minmax_step_spec prefs name mn mx p :
  minmax_step prefs name (mn, mx) p =
    match lookup2 prefs p name with
    | Some score =>
        if -100 <? score then (Z.min mn score, Z.max mx score) else (mn, mx)
    | None => (mn, mx)
    end.
Proof.
  unfold minmax_step. destruct (lookup2 prefs p name) as [score|]; [|done].
  destruct (-100 <? score); [|done].
  f_equal; repeat case_match; lia.
Qed.

Lemma minmax_fold prefs name papers : ∀ a b mn mx,
  fold_left (minmax_step prefs name) papers (a, b) = (mn, mx) →
  let scores := filter (λ s, -100 < s) (omap (λ p, lookup2 prefs p name) papers) in
  (mn = a ∨ mn ∈ scores) ∧ (mx = b ∨ mx ∈ scores)
  ∧ mn <= a ∧ b <= mx ∧ (∀ s, s ∈ scores → mn <= s <= mx).
Proof.
  induction papers as [|p papers IH]; intros a b mn mx.
  - simpl. intros [= <- <-]. split; [auto|]. split; [auto|]. split; [lia|].
    split; [lia|]. by intros s ?%elem_of_nil.
  - cbn [fold_left]. rewrite minmax_step_spec. cbn [omap list_omap].
    destruct (lookup2 prefs p name) as [score|]; [|apply IH].
    rewrite filter_cons. destruct (Z.ltb_spec (-100) score) as [Hlt|Hge].
    + rewrite decide_True by done. intros H.
      destruct (IH _ _ _ _ H) as (Hmn & Hmx & Ha & Hb & Hall).
      split; [|split; [|split; [lia|split; [lia|]]]].
      * destruct Hmn as [->|?]; [|right; by right].
        destruct (Z.min_spec a score) as [[_ ->]|[_ ->]]; [by left|right; by left].
      * destruct Hmx as [->|?]; [|right; by right].
        destruct (Z.max_spec b score) as [[_ ->]|[_ ->]]; [right; by left|by left].
      * intros s [->|Hs]%elem_of_cons; [lia|]. by apply Hall.
    + rewrite decide_False by lia. apply IH.
Qed.

Lemma elem_of_observed st name p raw :
  p ∈ keys (papers st) → lookup2 (prefs st) p name = Some raw → -100 < raw →
  raw ∈ filter (λ s, -100 < s) (observed_scores st name).
Proof.
  intros Hp Hraw Hlt. apply list_elem_of_filter. split; [done|].
  unfold observed_scores. apply list_elem_of_omap. eauto.
Qed.

(** C5, as stated, fails: the range starts from [0, 0], so a reviewer whose
    scores are 5 and 10 gets the range [0, 10], not [5, 10]. *)
Lemma adaptive_range_contains_zero :
  process_prefs rows_positive = Ok (loaded rows_positive)
  ∧ nonconflict_scores (loaded rows_positive) "Ann A" = [5; 10]
  ∧ individual_minmax (loaded rows_positive) "Ann A" = (0, 10)
  ∧ individual_minmax (loaded rows_positive) "Ann A" ≠ (5, 10)
  ∧ odict_get (compute_bounds true (loaded rows_positive)) "Ann A"
    = Some {| num := 1; pc_email := "Ann@example.org";
              pc_min := Some 0; pc_max := Some 10 |}.
Proof. repeat split; by vm_compute. Qed.

(** C5 (amended): in adaptive mode a reviewer's range is the smallest
    interval that contains 0 and every raw score of that reviewer above
    -100 (scores of -100, which include every conflict, are left out); a
    reviewer without such a score gets the range [0, 0], and no intensity
    is computed for that reviewer. *)
Theorem adaptive_range (st : tables) (name : string) (info : pc_info)
    (mn mx : Z) :
  (name, info) ∈ pc st →
  individual_minmax st name = (mn, mx) →
  (name, set_bounds info mn mx) ∈ compute_bounds true st
  ∧ (mn = 0 ∨ mn ∈ filter (λ s, -100 < s) (observed_scores st name))
  ∧ (mx = 0 ∨ mx ∈ filter (λ s, -100 < s) (observed_scores st name))
  ∧ mn <= 0 <= mx
  ∧ (∀ s, s ∈ filter (λ s, -100 < s) (observed_scores st name) → mn <= s <= mx)
  ∧ (filter (λ s, -100 < s) (observed_scores st name) = [] →
     mn = 0 ∧ mx = 0
     ∧ ∀ tbl p, compute_prefs_scaled (prefs st) (keys (papers st))
                  (compute_bounds true st) = Ok tbl →
                lookup2 tbl p name = None).
Proof.
  intros Hin Hmm.
  destruct (minmax_fold _ _ _ _ _ _ _ Hmm) as (Hmn & Hmx & Hle & Hge & Hall).
  fold (observed_scores st name) in Hmn, Hmx, Hall.
  split; [|split; [done|split; [done|split; [lia|split; [done|]]]]].
  - apply elem_of_compute_bounds. exists info. by rewrite Hmm.
  - intros Hnil. rewrite Hnil in Hmn, Hmx.
    split; [|split].
    + destruct Hmn as [->|?%elem_of_nil]; done.
    + destruct Hmx as [->|?%elem_of_nil]; done.
    + intros tbl p Htbl. destruct (lookup2 tbl p name) as [v|] eqn:Hv; [|done].
      destruct (compute_prefs_scaled_sound _ _ _ _ _ _ _ Htbl Hv)
        as (Hp & _ & raw & _ & _ & _ & Hraw & Hlt & _).
      pose proof (elem_of_observed _ _ _ _ Hp Hraw Hlt) as Hscore.
      rewrite Hnil in Hscore. by apply elem_of_nil in Hscore.
Qed.

Lemma adaptive_range_witness :
  let st := loaded rows_mixed in
  let info := {| num := 1; pc_email := "Ann@example.org";
                 pc_min := None; pc_max := None |} in
  ("Ann A", info) ∈ pc st
  ∧ individual_minmax st "Ann A" = (-7, 5)
  ∧ ("Ann A", set_bounds info (-7) 5) ∈ compute_bounds true st
  ∧ (-7 = 0 ∨ -7 ∈ filter (λ s, -100 < s) (observed_scores st "Ann A"))
  ∧ (5 = 0 ∨ 5 ∈ filter (λ s, -100 < s) (observed_scores st "Ann A"))
  ∧ -7 <= 0 <= 5
  ∧ (∀ s, s ∈ filter (λ s, -100 < s) (observed_scores st "Ann A") → -7 <= s <= 5)
  ∧ (filter (λ s, -100 < s) (observed_scores st "Ann A") = [] →
     -7 = 0 ∧ 5 = 0
     ∧ ∀ tbl p, compute_prefs_scaled (prefs st) (keys (papers st))
                  (compute_bounds true st) = Ok tbl →
                lookup2 tbl p "Ann A" = None).
Proof.
  intros st info.
  assert (H1 : ("Ann A", info) ∈ pc st).
  { replace (pc st) with [("Ann A", info)] by (by vm_compute). by left. }
  assert (H2 : individual_minmax st "Ann A" = (-7, 5)) by (by vm_compute).
  split; [exact H1|]. split; [exact H2|].
  exact (adaptive_range st "Ann A" info (-7) 5 H1 H2).
Defined.

(** The bounds the run works with after the tables are read. *)
Lemma compute_bounds_nodup b st :
  tables_ok st → NoDup (keys (compute_bounds b st)).
Proof. intros Hok. rewrite keys_compute_bounds. apply Hok. Qed.


(* ===================================================================== *)
(** * The lengths and assignment files *)
(* ===================================================================== *)

Lemma process_length_ok st line st' :
  tables_ok st → process_length st line = Ok st' →
  tables_ok st' ∧ prefs st' = prefs st ∧ prefs_type st' = prefs_type st
  ∧ email st' = email st ∧ pc st' = pc st ∧ assigned st' = assigned st
  ∧ keys (papers st') = keys (papers st).
Proof.
  intros Hok. unfold process_length.
  destruct (int (l_Pages line)) as [n|e]; simpl; [|discriminate].
  destruct (odict_get (papers st) (l_ID line)) as [info|] eqn:Hget; [|discriminate].
  intros [= <-]. simpl.
  assert (Hk : keys (odict_set (papers st) (l_ID line)
                 {| title := title info; n_pages := n |}) = keys (papers st)).
  { apply keys_odict_set_old. rewrite Hget. eauto. }
  split; [|done].
  split; simpl; rewrite ?Hk; apply Hok.
Qed.

Lemma process_assign_ok st line st' :
  tables_ok st → process_assign st line = Ok st' →
  tables_ok st' ∧ prefs st' = prefs st ∧ prefs_type st' = prefs_type st
  ∧ email st' = email st ∧ pc st' = pc st ∧ papers st' = papers st.
Proof.
  intros Hok. unfold process_assign.
  destruct (String.eqb (a_action line) "primary"); [|by intros [= <-]].
  unfold getitem.
  destruct (assigned st !! a_paper line) as [row|] eqn:Hrow; simpl; [|discriminate].
  destruct (email st !! a_email line) as [name|]; simpl; [|discriminate].
  intros [= <-]. simpl. split; [|done].
  split; simpl; try apply Hok.
  intros p. rewrite <- (ok_assigned_dom _ Hok).
  destruct (decide (a_paper line = p)) as [<-|Hne].
  - rewrite lookup_insert_eq, Hrow. split; eauto.
  - by rewrite lookup_insert_ne.
Qed.

Lemma process_lengths_ok st lengths_file st' :
  tables_ok st → process_lengths st lengths_file = Ok st' →
  tables_ok st' ∧ prefs st' = prefs st ∧ prefs_type st' = prefs_type st
  ∧ email st' = email st ∧ pc st' = pc st.
Proof.
  destruct lengths_file as [rows|]; simpl; [|by intros ? [= <-]].
  revert st. induction rows as [|line rows IH]; simpl; intros st Hok.
  - by intros [= <-].
  - intros (s1 & H1 & H2)%result_bind_Ok.
    destruct (process_length_ok _ _ _ Hok H1) as (Hok1 & <- & <- & <- & <- & _).
    by apply IH.
Qed.

Lemma process_assigns_ok st assign_file st' :
  tables_ok st → process_assigns st assign_file = Ok st' →
  tables_ok st' ∧ prefs st' = prefs st ∧ prefs_type st' = prefs_type st
  ∧ email st' = email st ∧ pc st' = pc st.
Proof.
  destruct assign_file as [rows|]; simpl; [|by intros ? [= <-]].
  revert st. induction rows as [|line rows IH]; simpl; intros st Hok.
  - by intros [= <-].
  - intros (s1 & H1 & H2)%result_bind_Ok.
    destruct (process_assign_ok _ _ _ Hok H1) as (Hok1 & <- & <- & <- & <- & _).
    by apply IH.
Qed.

Lemma load_ok pref_file assign_file lengths_file st :
  load pref_file assign_file lengths_file = Ok st → tables_ok st.
Proof.
  unfold load. intros (s1 & H1 & H2)%result_bind_Ok.
  apply result_bind_Ok in H2 as (s2 & H2 & H3).
  apply process_prefs_ok in H1.
  apply (process_lengths_ok _ _ _ H1) in H2 as [H2 _].
  by apply (process_assigns_ok _ _ _ H2) in H3 as [H3 _].
Qed.

(** A primary row with an unknown email stops the loop over the
    assignment file, at that row or before it. *)
Lemma process_assign_raises st line e :
  process_assign st line = Raise e → e = KeyError.
Proof.
  unfold process_assign, getitem.
  destruct (String.eqb (a_action line) "primary"); [|discriminate].
  destruct (assigned st !! a_paper line); simpl; [|by intros [= <-]].
  destruct (email st !! a_email line); simpl; [discriminate|by intros [= <-]].
Qed.

Lemma unknown_email_KeyError rows line : ∀ st,
  tables_ok st → line ∈ rows → a_action line = "primary" →
  email st !! a_email line = None →
  for_each process_assign st rows = Raise KeyError.
Proof.
  induction rows as [|l rows IH]; intros st Hok Hin Hact Hmail.
  - by apply elem_of_nil in Hin.
  - simpl. destruct (process_assign st l) as [s1|e] eqn:Hl; simpl.
    + destruct (process_assign_ok _ _ _ Hok Hl) as (Hok1 & _ & _ & Hemail & _).
      apply elem_of_cons in Hin as [->|Hin].
      * exfalso. revert Hl. unfold process_assign, getitem. rewrite Hact. simpl.
        destruct (assigned st !! a_paper l); simpl; [|discriminate].
        by rewrite Hmail.
      * apply IH; [done..|]. by rewrite Hemail.
    + by apply process_assign_raises in Hl as ->.
Qed.

(* ===================================================================== *)
(** * The run *)
(* ===================================================================== *)

Lemma string_app_assoc (a b c : string) : (a ++ b) ++ c = a ++ b ++ c.
Proof.
  induction a as [|x a IH]; [done|].
  change (String x ((a ++ b) ++ c) = String x (a ++ b ++ c)). by f_equal.
Qed.

Lemma string_app_nil_r (a : string) : a ++ "" = a.
Proof.
  induction a as [|x a IH]; [done|].
  change (String x (a ++ "") = String x a). by f_equal.
Qed.

(** When reading the files raises, the header is all that was written. *)
Lemma run_load_raises opts pref_file assign_file lengths_file e :
  load pref_file assign_file lengths_file = Raise e →
  run opts pref_file assign_file lengths_file = (header opts, Raise e).
Proof.
  intros Hload. unfold run, print, lift, header.
  cbn [mbind prog_bind]. rewrite Hload.
  by rewrite !string_app_assoc, !string_app_nil_r.
Qed.

(** C9, as stated, fails: the header is printed before any file is read,
    so the run that stops on the unknown email has written it already. *)
Lemma header_written_before_abort :
  run default_options [pref_line "1" "Ann" "A" "0" "" ""]
      (Some [assign_nobody]) None
  = (header default_options, Raise KeyError)
  ∧ header default_options ≠ "".
Proof. split; by vm_compute. Qed.

(** C9 (amended): when the preferences and lengths are read without error
    and the assignment file has a primary row whose email is not in the
    email map, the run stops with [KeyError]; the header is all that was
    written to standard output. *)
Theorem unknown_email_aborts (opts : options) (pref_file : list pref_row)
    (rows : list assign_row) (lengths_file : option (list length_row))
    (st0 st1 : tables) (line : assign_row) :
  process_prefs pref_file = Ok st0 →
  process_lengths st0 lengths_file = Ok st1 →
  line ∈ rows → a_action line = "primary" →
  email st0 !! a_email line = None →
  run opts pref_file (Some rows) lengths_file = (header opts, Raise KeyError).
Proof.
  intros H0 H1 Hin Hact Hmail. apply run_load_raises.
  unfold load. rewrite H0. simpl. rewrite H1. simpl.
  pose proof (process_prefs_ok _ _ H0) as Hok0.
  destruct (process_lengths_ok _ _ _ Hok0 H1) as (Hok1 & _ & _ & Hemail & _).
  apply unknown_email_KeyError with line; [done..|]. by rewrite Hemail.
Qed.

Lemma unknown_email_aborts_witness :
  let st0 := loaded [pref_line "1" "Ann" "A" "0" "" ""] in
  let st1 := match process_lengths st0 (Some [{| l_ID := "1"; l_Pages := "12" |}])
             with Ok st => st | Raise _ => st0 end in
  process_prefs [pref_line "1" "Ann" "A" "0" "" ""] = Ok st0
  ∧ process_lengths st0 (Some [{| l_ID := "1"; l_Pages := "12" |}]) = Ok st1
  ∧ assign_nobody ∈ [assign_ann; assign_nobody]
  ∧ a_action assign_nobody = "primary"
  ∧ email st0 !! a_email assign_nobody = None
  ∧ run scale_options [pref_line "1" "Ann" "A" "0" "" ""]
      (Some [assign_ann; assign_nobody])
      (Some [{| l_ID := "1"; l_Pages := "12" |}])
    = (header scale_options, Raise KeyError).
Proof.
  intros st0 st1.
  assert (H0 : process_prefs [pref_line "1" "Ann" "A" "0" "" ""] = Ok st0)
    by (by vm_compute).
  assert (H1 : process_lengths st0 (Some [{| l_ID := "1"; l_Pages := "12" |}])
               = Ok st1) by (by vm_compute).
  assert (H2 : assign_nobody ∈ [assign_ann; assign_nobody]) by (right; left).
  assert (H3 : a_action assign_nobody = "primary") by reflexivity.
  assert (H4 : email st0 !! a_email assign_nobody = None) by (by vm_compute).
  split; [exact H0|].
  split; [exact H1|]. split; [exact H2|]. split; [exact H3|]. split; [exact H4|].
  exact (unknown_email_aborts scale_options _ _ _ st0 st1 _ H0 H1 H2 H3 H4).
Defined.

(* ===================================================================== *)
(** * Rendering a cell *)
(* ===================================================================== *)

Lemma string_of_uint_no_brace d :
  no_close_brace (NilEmpty.string_of_uint d) = true.
Proof. induction d; simpl; done. Qed.

Lemma str_no_brace n : no_close_brace (str n) = true.
Proof.
  unfold str, NilZero.string_of_int.
  destruct (Z.to_int n) as [d|d]; unfold NilZero.string_of_uint.
  - destruct d; try done; simpl; apply string_of_uint_no_brace.
  - change (no_close_brace
              (String "-" (match d with
                           | Decimal.Nil => "0"
                           | _ => NilEmpty.string_of_uint d
                           end)) = true).
    destruct d; try done; simpl; apply string_of_uint_no_brace.
Qed.

(** Two texts that agree up to their first closing brace. *)
Lemma split_at_brace s : ∀ s' t t',
  no_close_brace s = true → no_close_brace s' = true →
  s ++ String "}" t = s' ++ String "}" t' → s = s' ∧ t = t'.
Proof.
  induction s as [|c s IH]; intros [|c' s'] t t' Hs Hs' Heq.
  - by injection Heq as ->.
  - injection Heq as <- _. by simpl in Hs'.
  - injection Heq as -> _. by simpl in Hs.
  - injection Heq as -> Heq. simpl in Hs, Hs'.
    apply andb_prop in Hs as [_ Hs]. apply andb_prop in Hs' as [_ Hs'].
    destruct (IH _ _ _ Hs Hs' Heq) as [-> ->]. done.
Qed.

Lemma scored_cell_not_conflict ty a a' v raw :
  ty ≠ TagC → (a = "" ∨ a = "A") → (a' = "" ∨ a' = "A") →
  "\" ++ kind_str ty ++ "rate" ++ a ++ "{" ++ str v ++ "}{"
    ++ kind_str ty ++ str raw ++ "}" ≠ conflict_cell a'.
Proof.
  intros Hty Ha Ha' Heq. unfold conflict_cell in Heq.
  destruct ty; [| |done].
  - destruct Ha as [->| ->], Ha' as [->| ->]; discriminate Heq.
  - destruct Ha as [->| ->], Ha' as [->| ->]; try discriminate Heq.
    + injection Heq as Heq.
      change (str v ++ String "}" ("{P" ++ str raw ++ "}")
              = "-100" ++ String "}" "{C}") in Heq.
      apply split_at_brace in Heq as [_ Heq];
        [discriminate Heq|apply str_no_brace|done].
    + injection Heq as Heq.
      change (str v ++ String "}" ("{P" ++ str raw ++ "}")
              = "-100" ++ String "}" "{C}") in Heq.
      apply split_at_brace in Heq as [_ Heq];
        [discriminate Heq|apply str_no_brace|done].
Qed.

Lemma assigned_marker_cases st p name :
  assigned_marker st p name = "" ∨ assigned_marker st p name = "A".
Proof. unfold assigned_marker. case_bool_decide; auto. Qed.

Lemma Ok_inj {A} (a b : A) : Ok a = Ok b → a = b.
Proof. by intros [= ->]. Qed.

Lemma pretty_conflict_only st prefs_scaled p name a :
  (a = "" ∨ a = "A") →
  pretty st prefs_scaled p name = Ok (conflict_cell a) →
  lookup2 (prefs_type st) p name = Some TagC.
Proof.
  intros Ha. unfold pretty. fold (assigned_marker st p name).
  destruct (assigned_marker_cases st p name) as [Hm|Hm]; rewrite Hm.
  all: destruct (lookup2 (prefs st) p name) as [raw|];
    [|destruct Ha as [->| ->]; discriminate].
  all: destruct (lookup2 (prefs_type st) p name) as [ty|]; simpl; [|discriminate].
  all: destruct (kind_eqb ty TagC) eqn:Hty; [by destruct ty|].
  all: destruct (raw =? -100); [destruct Ha as [->| ->]; discriminate|].
  all: destruct (lookup2 prefs_scaled p name) as [v|]; simpl; [|discriminate].
  all: intros Heq%Ok_inj; exfalso; revert Heq.
  - apply (scored_cell_not_conflict ty "" a v raw); [by intros ->|auto|done].
  - apply (scored_cell_not_conflict ty "A" a v raw); [by intros ->|auto|done].
Qed.

(** C10: a raw score of -100, whatever its tag, leaves the bounds of the
    adaptive scaling as they are, gets no scaled intensity, and is rendered
    with the shade -100; the label is C for a conflict and the raw value
    -100 otherwise, and only a pair tagged as conflict is rendered with the
    label C. *)
Theorem raw_minus_100 (pref_file : list pref_row)
    (assign_file : option (list assign_row))
    (lengths_file : option (list length_row)) (opt_scale : bool)
    (st : tables) (prefs_scaled : gmap string (gmap string Z))
    (p name : string) :
  load pref_file assign_file lengths_file = Ok st →
  compute_prefs_scaled (prefs st) (keys (papers st)) (compute_bounds opt_scale st)
    = Ok prefs_scaled →
  lookup2 (prefs st) p name = Some (-100) →
  (∀ acc, minmax_step (prefs st) name acc p = acc)
  ∧ lookup2 prefs_scaled p name = None
  ∧ (∃ ty, lookup2 (prefs_type st) p name = Some ty
           ∧ pretty (with_bounds opt_scale st) prefs_scaled p name
             = Ok (if kind_eqb ty TagC
                   then conflict_cell (assigned_marker st p name)
                   else minus_100_cell (assigned_marker st p name)))
  ∧ (∀ q n a, (a = "" ∨ a = "A") →
       pretty (with_bounds opt_scale st) prefs_scaled q n = Ok (conflict_cell a) →
       lookup2 (prefs_type st) q n = Some TagC).
Proof.
  intros Hload Htbl Hraw. pose proof (load_ok _ _ _ _ Hload) as Hok.
  split; [|split; [|split]].
  - intros [mn mx]. by rewrite minmax_step_spec, Hraw.
  - destruct (lookup2 prefs_scaled p name) as [v|] eqn:Hv; [|done].
    destruct (compute_prefs_scaled_sound _ _ _ _ _ _ _ Htbl Hv)
      as (_ & _ & raw & _ & _ & _ & Hraw' & Hlt & _).
    rewrite Hraw in Hraw'. injection Hraw' as <-. lia.
  - destruct (proj2 (ok_type_pref _ Hok p name)) as [ty Hty]; [by rewrite Hraw|].
    exists ty. split; [done|].
    unfold pretty, with_bounds. simpl. fold (assigned_marker st p name).
    rewrite Hraw, Hty. simpl. by destruct (kind_eqb ty TagC).
  - intros q n a Ha Hcell. by apply (pretty_conflict_only _ _ _ _ _ Ha Hcell).
Qed.

Lemma raw_minus_100_witness :
  let st := match load rows_minus_100 (Some [assign_ann]) None with
            | Ok st => st
            | Raise _ => empty_tables
            end in
  load rows_minus_100 (Some [assign_ann]) None = Ok st
  ∧ compute_prefs_scaled (prefs st) (keys (papers st)) (compute_bounds true st)
    = Ok (scaled true st)
  ∧ lookup2 (prefs st) "1" "Ann A" = Some (-100)
  ∧ (∀ acc, minmax_step (prefs st) "Ann A" acc "1" = acc)
  ∧ lookup2 (scaled true st) "1" "Ann A" = None
  ∧ (∃ ty, lookup2 (prefs_type st) "1" "Ann A" = Some ty
           ∧ pretty (with_bounds true st) (scaled true st) "1" "Ann A"
             = Ok (if kind_eqb ty TagC
                   then conflict_cell (assigned_marker st "1" "Ann A")
                   else minus_100_cell (assigned_marker st "1" "Ann A")))
  ∧ (∀ q n a, (a = "" ∨ a = "A") →
       pretty (with_bounds true st) (scaled true st) q n = Ok (conflict_cell a) →
       lookup2 (prefs_type st) q n = Some TagC).
Proof.
  intros st.
  assert (H1 : load rows_minus_100 (Some [assign_ann]) None = Ok st)
    by (by vm_compute).
  assert (H2 : compute_prefs_scaled (prefs st) (keys (papers st))
                 (compute_bounds true st) = Ok (scaled true st))
    by (by vm_compute).
  assert (H3 : lookup2 (prefs st) "1" "Ann A" = Some (-100)) by (by vm_compute).
  split; [exact H1|]. split; [exact H2|]. split; [exact H3|].
  exact (raw_minus_100 _ _ _ true st (scaled true st) "1" "Ann A" H1 H2 H3).
Defined.

(* ===================================================================== *)
(** * The stable sort *)
(* ===================================================================== *)

Section SortedFacts.
Context {A K : Type} (ltb : K → K → bool) (key : A → K).

Lemma sorted_insert_perm x l : Permutation (sorted_insert ltb key x l) (x :: l).
Proof.
  induction l as [|y l IH]; simpl; [done|].
  destruct (ltb (key y) (key x)); [|done].
  rewrite IH. apply perm_swap.
Qed.

Lemma sorted_perm l : Permutation (sorted ltb key l) l.
Proof.
  induction l as [|x l IH]; simpl; [done|].
  unfold sorted in *. simpl. rewrite sorted_insert_perm. by constructor.
Qed.

(** Inserting an element leaves the elements of any class of keys in
    their order, the new element first among those of its own class. *)
Lemma sorted_insert_filter (same : A → bool) x l :
  (∀ y, ltb (key y) (key x) = true → same x = true → same y = false) →
  List.filter same (sorted_insert ltb key x l) = List.filter same (x :: l).
Proof.
  intros Hclass. induction l as [|y l IH]; simpl; [done|].
  destruct (ltb (key y) (key x)) eqn:Hlt; [|done].
  simpl. rewrite IH. simpl.
  destruct (same x) eqn:Hx; [|done].
  by rewrite (Hclass y Hlt eq_refl).
Qed.

Lemma sorted_stable (same : A → bool) l :
  (∀ x y, ltb (key y) (key x) = true → same x = true → same y = false) →
  List.filter same (sorted ltb key l) = List.filter same l.
Proof.
  intros Hclass. induction l as [|x l IH]; simpl; [done|].
  unfold sorted in *. simpl. rewrite sorted_insert_filter by apply Hclass.
  simpl. by rewrite IH.
Qed.
End SortedFacts.

Lemma Qltb_lt x y : Qltb x y = true ↔ (x < y)%Q.
Proof.
  unfold Qltb. rewrite negb_true_iff. split.
  - intros H. apply Qnot_le_lt. intros Hle. apply Qle_bool_iff in Hle. congruence.
  - intros H. destruct (Qle_bool y x) eqn:E; [|done].
    apply Qle_bool_iff in E. exfalso. by apply (Qlt_not_le _ _ H).
Qed.

Lemma Qltb_ge x y : Qltb x y = false ↔ (y <= x)%Q.
Proof.
  unfold Qltb. rewrite negb_false_iff. apply Qle_bool_iff.
Qed.

Section SortedQ.
Context {A : Type} (key : A → Q).

Lemma sorted_insert_sorted x l :
  StronglySorted (λ a b, (key a <= key b)%Q) l →
  StronglySorted (λ a b, (key a <= key b)%Q) (sorted_insert Qltb key x l).
Proof.
  induction 1 as [|y l Hs IH Hall]; simpl.
  - repeat constructor.
  - destruct (Qltb (key y) (key x)) eqn:Hlt.
    + constructor; [done|].
      eapply Permutation_Forall; [symmetry; apply sorted_insert_perm|].
      constructor; [|done]. apply Qltb_lt in Hlt. by apply Qlt_le_weak.
    + apply Qltb_ge in Hlt. constructor; [by constructor|].
      constructor; [done|].
      eapply List.Forall_impl; [|exact Hall].
      intros z Hz. by eapply Qle_trans.
Qed.

Lemma sorted_sorted l :
  StronglySorted (λ a b, (key a <= key b)%Q) (sorted Qltb key l).
Proof.
  induction l as [|x l IH]; simpl; [constructor|].
  unfold sorted in *. simpl. by apply sorted_insert_sorted.
Qed.
End SortedQ.

(* ===================================================================== *)
(** * Affinity *)
(* ===================================================================== *)

Lemma affinity_fold prefs_scaled name (l : list (nat * string)) : ∀ s t,
  fold_left (affinity_step prefs_scaled name) l (s, t)
  = (s + weighted_sum
           (omap (λ '(i, p), (λ v, (i, v)) <$> lookup2 prefs_scaled p name) l),
     t + intensity_sum
           (omap (λ '(i, p), (λ v, (i, v)) <$> lookup2 prefs_scaled p name) l)).
Proof.
  unfold weighted_sum, intensity_sum.
  induction l as [|[i p] l IH]; intros s t; cbn [fold_left omap list_omap].
  - simpl. f_equal; lia.
  - unfold affinity_step at 2.
    destruct (lookup2 prefs_scaled p name) as [v|]; simpl; rewrite IH; [|done].
    f_equal; lia.
Qed.

Lemma affinity_sums_spec prefs_scaled sorted_papers name :
  affinity_sums prefs_scaled sorted_papers name
  = (weighted_sum (scaled_entries prefs_scaled sorted_papers name),
     intensity_sum (scaled_entries prefs_scaled sorted_papers name)).
Proof. unfold affinity_sums. by rewrite affinity_fold. Qed.

Lemma scaled_entries_nonneg prefs_scaled sorted_papers name :
  (∀ p n v, lookup2 prefs_scaled p n = Some v → 0 <= v) →
  0 <= weighted_sum (scaled_entries prefs_scaled sorted_papers name).
Proof.
  intros Hpos. unfold scaled_entries, weighted_sum.
  induction (combine (seq 0 (length sorted_papers)) sorted_papers)
    as [|[i p] l IH]; cbn [omap list_omap]; [done|].
  destruct (lookup2 prefs_scaled p name) as [v|] eqn:Hv; simpl; [|done].
  specialize (Hpos _ _ _ Hv). nia.
Qed.

(** C7, as stated, fails: a reviewer whose scaled entries are all 0 has a
    scaled entry and still gets the sentinel -1, not a weighted average of
    positions. *)
Lemma zero_intensity_gets_sentinel :
  let prefs_scaled := scaled false (loaded rows_lowest) in
  process_prefs rows_lowest = Ok (loaded rows_lowest)
  ∧ compute_prefs_scaled (prefs (loaded rows_lowest))
      (keys (papers (loaded rows_lowest)))
      (compute_bounds false (loaded rows_lowest)) = Ok prefs_scaled
  ∧ scaled_entries prefs_scaled ["1"; "2"] "Ann A" = [(0%nat, 0); (1%nat, 0)]
  ∧ affinity prefs_scaled ["1"; "2"] "Ann A" = (-1 # 1)%Q
  ∧ ¬ (affinity prefs_scaled ["1"; "2"] "Ann A"
       == affinity_spec prefs_scaled ["1"; "2"] "Ann A")%Q.
Proof. intros prefs_scaled. repeat split; by vm_compute. Qed.

(** C7 (amended): a reviewer whose scaled intensities have a positive sum
    gets the weighted average sum(intensity * position) / sum(intensity);
    a reviewer whose intensities sum to 0, in particular one without any
    scaled entry, gets -1, which is below every computed affinity; and the
    reviewers are sorted by ascending affinity, those of equal affinity in
    their original order. *)
Theorem affinity_order (prefs : gmap string (gmap string Z))
    (papers : list string) (pcs : list (string * pc_info))
    (prefs_scaled : gmap string (gmap string Z))
    (sorted_papers : list string) (name : string) (q : Q) :
  compute_prefs_scaled prefs papers pcs = Ok prefs_scaled →
  (0 < intensity_sum (scaled_entries prefs_scaled sorted_papers name) →
     (affinity prefs_scaled sorted_papers name
      == inject_Z (weighted_sum (scaled_entries prefs_scaled sorted_papers name))
         / inject_Z (intensity_sum (scaled_entries prefs_scaled sorted_papers name)))%Q
     ∧ (-1 # 1 < affinity prefs_scaled sorted_papers name)%Q)
  ∧ (intensity_sum (scaled_entries prefs_scaled sorted_papers name) = 0 →
     affinity prefs_scaled sorted_papers name = (-1 # 1)%Q)
  ∧ (scaled_entries prefs_scaled sorted_papers name = [] →
     affinity prefs_scaled sorted_papers name = (-1 # 1)%Q)
  ∧ Permutation (sort_pc prefs_scaled sorted_papers (keys pcs)) (keys pcs)
  ∧ StronglySorted
      (λ a b, (affinity prefs_scaled sorted_papers a
               <= affinity prefs_scaled sorted_papers b)%Q)
      (sort_pc prefs_scaled sorted_papers (keys pcs))
  ∧ List.filter (λ n, Qeq_bool (affinity prefs_scaled sorted_papers n) q)
      (sort_pc prefs_scaled sorted_papers (keys pcs))
    = List.filter (λ n, Qeq_bool (affinity prefs_scaled sorted_papers n) q)
        (keys pcs).
Proof.
  intros Htbl.
  assert (Hpos : ∀ p n v, lookup2 prefs_scaled p n = Some v → 0 <= v).
  { intros p n v Hv. by destruct (prefs_scaled_range _ _ _ _ _ _ _ Htbl Hv). }
  pose proof (scaled_entries_nonneg _ sorted_papers name Hpos) as Hs.
  unfold affinity. rewrite affinity_sums_spec.
  set (s := weighted_sum (scaled_entries prefs_scaled sorted_papers name)) in *.
  set (t := intensity_sum (scaled_entries prefs_scaled sorted_papers name)) in *.
  split; [|split; [|split; [|split; [|split]]]].
  - intros Ht. destruct (Z.ltb_spec 0 t); [|lia]. split.
    + rewrite (Qmake_Qdiv s (Z.to_pos t)). by rewrite Z2Pos.id.
    + unfold Qlt. simpl. nia.
  - intros Ht. destruct (Z.ltb_spec 0 t); [lia|done].
  - intros Hnil. subst t. rewrite Hnil. done.
  - apply sorted_perm.
  - apply (sorted_sorted (affinity prefs_scaled sorted_papers)).
  - apply sorted_stable. intros x y Hlt Hx.
    apply Qltb_lt in Hlt. apply Qeq_bool_iff in Hx.
    destruct (Qeq_bool _ q) eqn:Hy; [|done].
    apply Qeq_bool_iff in Hy. rewrite Hx, Hy in Hlt.
    by apply Qlt_irrefl in Hlt.
Qed.

Lemma affinity_order_witness :
  let st := loaded rows_opposed in
  let prefs_scaled := scaled false st in
  compute_prefs_scaled (prefs st) (keys (papers st)) (compute_bounds false st)
    = Ok prefs_scaled
  ∧ 0 < intensity_sum (scaled_entries prefs_scaled ["1"; "2"] "Bob B")
  ∧ sort_pc prefs_scaled ["1"; "2"] (keys (compute_bounds false st))
    = ["Ann A"; "Bob B"]
  ∧ affinity prefs_scaled ["1"; "2"] "Bob B" = (100 # 150)%Q
  ∧ (0 < intensity_sum (scaled_entries prefs_scaled ["1"; "2"] "Bob B") →
     (affinity prefs_scaled ["1"; "2"] "Bob B"
      == inject_Z (weighted_sum (scaled_entries prefs_scaled ["1"; "2"] "Bob B"))
         / inject_Z (intensity_sum (scaled_entries prefs_scaled ["1"; "2"] "Bob B")))%Q
     ∧ (-1 # 1 < affinity prefs_scaled ["1"; "2"] "Bob B")%Q).
Proof.
  intros st prefs_scaled.
  assert (H : compute_prefs_scaled (prefs st) (keys (papers st))
                (compute_bounds false st) = Ok prefs_scaled) by (by vm_compute).
  split; [exact H|]. split; [by vm_compute|]. split; [by vm_compute|].
  split; [by vm_compute|].
  exact (proj1 (affinity_order (prefs st) (keys (papers st))
                  (compute_bounds false st) prefs_scaled ["1"; "2"] "Bob B"
                  0%Q H)).
Defined.

(* ===================================================================== *)
(** * Distances *)
(* ===================================================================== *)






Lemma paper_dist_faults prefs_scaled pc p1 p2 :
  snd (shared_sums prefs_scaled pc p1 p2) = 0 →
  paper_dist prefs_scaled pc p1 p2 = Raise ZeroDivisionError.
Proof.
  intros Ht. unfold paper_dist.
  destruct (shared_sums prefs_scaled pc p1 p2) as [s t]. simpl in *. by subst t.
Qed.

(** C1, the failing input: two papers without a common scored reviewer.
    [paper_dist] divides by zero, and the run with [--order] stops after
    the header with [ZeroDivisionError]. *)
Theorem no_shared_reviewer_faults :
  process_prefs rows_disjoint = Ok (loaded rows_disjoint)
  ∧ compute_prefs_scaled (prefs (loaded rows_disjoint))
      (keys (papers (loaded rows_disjoint)))
      (compute_bounds false (loaded rows_disjoint))
    = Ok (scaled false (loaded rows_disjoint))
  ∧ shared_sums (scaled false (loaded rows_disjoint))
      (keys (pc (loaded rows_disjoint))) "1" "2" = (0, 0)
  ∧ paper_dist (scaled false (loaded rows_disjoint))
      (keys (pc (loaded rows_disjoint))) "1" "2" = Raise ZeroDivisionError
  ∧ run order_options rows_disjoint None None
    = (header order_options, Raise ZeroDivisionError).
Proof. repeat split; by vm_compute. Qed.


Section Distances.
Context (prefs_scaled : gmap string (gmap string Z)) (pc : list string).



End Distances.

(* ===================================================================== *)
(** * The scan for the closest pair of groups *)
(* ===================================================================== *)

Lemma elem_of_scan_pairs n ij : ij ∈ scan_pairs n ↔ valid_pair n ij.
Proof.
  unfold scan_pairs, valid_pair. rewrite list_elem_of_In, in_flat_map.
  destruct ij as [i j]. simpl. split.
  - intros (i' & Hi' & Hj). apply in_map_iff in Hj as (j' & [= <- <-] & Hj').
    apply in_seq in Hi', Hj'. lia.
  - intros [Hij Hj]. exists i. split; [apply in_seq; lia|].
    apply in_map_iff. exists j. split; [done|]. apply in_seq. lia.
Qed.







(** The pure scan: the candidate replaces the best pair when its distance
    is strictly smaller. *)
Section Scan.
Context (D : nat * nat → R).

End Scan.


Section Clustering.
Context (prefs_scaled : gmap string (gmap string Z)) (pc papers : list string).
Hypothesis shared : ∀ p1 p2, p1 ∈ papers → p2 ∈ papers →
  snd (shared_sums prefs_scaled pc p1 p2) ≠ 0.




End Clustering.

(* ===================================================================== *)
(** * Merging two groups *)
(* ===================================================================== *)

Lemma groups_split (groups : list (list string)) i j :
  (i < j)%nat → (j < length groups)%nat →
  ∃ gi gj,
    groups !! i = Some gi ∧ groups !! j = Some gj
    ∧ groups = (take i groups ++ gi :: drop (i + 1) (take j groups)
                ++ gj :: drop (j + 1) groups)%list.
Proof.
  intros Hij Hj.
  destruct (lookup_lt_is_Some_2 groups i) as [gi Hi]; [lia|].
  destruct (lookup_lt_is_Some_2 groups j) as [gj Hgj]; [lia|].
  exists gi, gj. split; [done|]. split; [done|].
  rewrite !Nat.add_1_r.
  rewrite <- (take_drop_middle groups j gj Hgj) at 1.
  rewrite app_comm_cons, app_assoc. f_equal.
  assert (Hti : take j groups !! i = Some gi) by (by rewrite lookup_take_lt).
  rewrite <- (take_drop_middle (take j groups) i gi Hti) at 1.
  rewrite take_take. by replace (i `min` j)%nat with i by lia.
Qed.

Lemma merge_merged groups i j :
  (i < j)%nat → (j < length groups)%nat →
  merge groups (i, j) = Ok (merged groups i j).
Proof.
  intros Hij Hj. destruct (groups_split groups i j Hij Hj) as (gi & gj & Hi & Hgj & _).
  unfold merge, merged, list_getitem. rewrite Hi, Hgj. simpl. f_equal.
  rewrite delete_take_drop, insert_take_drop.
  2: { rewrite length_app, length_take, length_drop. lia. }
  rewrite take_app_le by (rewrite length_take; lia).
  rewrite take_take. replace (i `min` j)%nat with i by lia.
  rewrite drop_app_le by (rewrite length_take; lia).
  by rewrite !Nat.add_1_r.
Qed.


(* ===================================================================== *)
(** * The agglomerative loop *)
(* ===================================================================== *)

Section Loop.
Context (prefs_scaled : gmap string (gmap string Z)) (pc papers : list string).
Hypothesis shared : ∀ p1 p2, p1 ∈ papers → p2 ∈ papers →
  snd (shared_sums prefs_scaled pc p1 p2) ≠ 0.

Lemma cluster_single fuel (g : list string) :
  cluster prefs_scaled pc fuel [g] = Some (Ok [g]).
Proof. by destruct fuel. Qed.


End Loop.


Lemma concat_singletons (papers : list string) :
  concat (map (λ p, [p]) papers) = papers.
Proof. induction papers as [|p papers IH]; simpl; [done|]. by rewrite IH. Qed.




(* ===================================================================== *)
(** * Termination of the loop *)
(* ===================================================================== *)

Section Termination.
Context (prefs_scaled : gmap string (gmap string Z)) (pc : list string).

Lemma best_step_cases groups best ij b :
  best_step prefs_scaled pc groups best ij = Ok b → b = ij ∨ b = best.
Proof.
  unfold best_step.
  destruct (group_dist prefs_scaled pc groups ij) as [d|]; [|discriminate].
  destruct (group_dist prefs_scaled pc groups best) as [d'|]; [|discriminate].
  simpl. destruct (float_lt d d'); intros [= <-]; auto.
Qed.

Lemma best_fold_valid groups cands : ∀ best b,
  valid_pair (length groups) best →
  (∀ c, c ∈ cands → valid_pair (length groups) c) →
  for_each (best_step prefs_scaled pc groups) best cands = Ok b →
  valid_pair (length groups) b.
Proof.
  induction cands as [|c cands IH]; intros best b Hbest Hall; simpl.
  - by intros [= <-].
  - intros (b1 & H1 & H2)%result_bind_Ok.
    apply (IH b1 b); [|intros x Hx; apply Hall; by right|done].
    destruct (best_step_cases _ _ _ _ H1) as [->| ->]; [|done].
    apply Hall. by left.
Qed.

Lemma find_best_valid groups best :
  (2 <= length groups)%nat →
  find_best prefs_scaled pc groups = Ok best →
  valid_pair (length groups) best.
Proof.
  intros Hlen. apply best_fold_valid.
  - split; simpl; lia.
  - intros c. apply elem_of_scan_pairs.
Qed.

(** The loop leaves through its exit or through an exception within
    one iteration per group. *)
Lemma cluster_terminates fuel : ∀ groups,
  (length groups <= S fuel)%nat →
  is_Some (cluster prefs_scaled pc fuel groups).
Proof.
  induction fuel as [|fuel IH]; intros groups Hlen.
  - cbn [cluster]. rewrite bool_decide_eq_false_2 by lia. eauto.
  - cbn [cluster]. case_bool_decide as Hmore; [|eauto].
    destruct (find_best prefs_scaled pc groups) as [[i j]|e] eqn:Hbest;
      cbn [mbind result_bind]; [|eauto].
    apply find_best_valid in Hbest as [Hij Hj]; [|lia]. simpl in Hij, Hj.
    rewrite merge_merged by done. apply IH.
    unfold merged. rewrite length_insert, length_delete; [lia|].
    by apply lookup_lt_is_Some_2.
Qed.

Lemma order_papers_terminates (papers : list string) :
  is_Some (cluster prefs_scaled pc (length (map (λ p, [p]) papers))
             (map (λ p, [p]) papers)).
Proof. apply cluster_terminates. lia. Qed.
End Termination.

(* ===================================================================== *)
(** * More on the loader *)
(* ===================================================================== *)

Lemma odict_set_new {V} (d : list (string * V)) k v :
  odict_get d k = None → odict_set d k v = (d ++ [(k, v)])%list.
Proof.
  unfold odict_get. induction d as [|[k0 v0] d IH]; simpl; [done|].
  destruct (String.eqb k0 k) eqn:E; simpl; [discriminate|].
  intros H. by rewrite IH.
Qed.

Lemma odict_get_None_keys {V} (d : list (string * V)) k :
  odict_get d k = None ↔ k ∉ keys d.
Proof.
  rewrite <- odict_get_Some_keys. destruct (odict_get d k) as [v|].
  - split; [discriminate|]. intros H. exfalso. apply H. eauto.
  - split; [|done]. intros _ [? ?]. discriminate.
Qed.

Lemma add_keys_first_seen l : ∀ acc,
  fold_left add_key l acc = (acc ++ filter (λ y, y ∉ acc) (first_seen l))%list.
Proof.
  induction l as [|x l IH]; intros acc; simpl.
  - by rewrite app_nil_r.
  - rewrite IH. unfold add_key. rewrite filter_cons.
    destruct (decide (x ∈ acc)) as [Hin|Hnotin].
    + rewrite decide_False by (by intros H; apply H).
      f_equal. rewrite list_filter_filter. apply list_filter_iff.
      intros y. split; [|by intros [? ?]].
      intros Hy. split; [done|]. intros ->. by apply Hy.
    + rewrite decide_True by done. rewrite <- app_assoc. simpl. do 2 f_equal.
      rewrite list_filter_filter. apply list_filter_iff.
      intros y. rewrite not_elem_of_app, list_elem_of_singleton. done.
Qed.

Lemma process_pref_keys st line st' :
  process_pref st line = Ok st' →
  keys (papers st') = add_key (keys (papers st)) (p_paper line)
  ∧ keys (pc st') = add_key (keys (pc st)) (reviewer_name line).
Proof.
  intros (n & _ & Hpapers & Hpc & _)%process_pref_inv.
  rewrite Hpapers, Hpc. unfold add_key. split.
  - destruct (bool_decide_reflect (is_Some (odict_get (papers st) (p_paper line))))
      as [Hk|Hk]; rewrite odict_get_Some_keys in Hk.
    + by rewrite decide_True.
    + rewrite decide_False by done. apply keys_odict_set_new.
      by apply odict_get_None_keys.
  - destruct (bool_decide_reflect (is_Some (odict_get (pc st) (reviewer_name line))))
      as [Hk|Hk]; rewrite odict_get_Some_keys in Hk.
    + by rewrite decide_True.
    + rewrite decide_False by done. apply keys_odict_set_new.
      by apply odict_get_None_keys.
Qed.

Lemma process_prefs_keys rows : ∀ st st',
  for_each process_pref st rows = Ok st' →
  keys (papers st') = fold_left add_key (map p_paper rows) (keys (papers st))
  ∧ keys (pc st') = fold_left add_key (map reviewer_name rows) (keys (pc st)).
Proof.
  induction rows as [|line rows IH]; simpl; intros st st'.
  - by intros [= <-].
  - intros (s1 & H1 & H2)%result_bind_Ok.
    destruct (process_pref_keys _ _ _ H1) as [<- <-]. by apply IH.
Qed.

Lemma filter_all (P : string → Prop) `{!∀ x, Decision (P x)} (l : list string) :
  (∀ y, P y) → filter P l = l.
Proof.
  intros HP. induction l as [|x l IH]; [done|].
  rewrite filter_cons, decide_True by apply HP. by rewrite IH.
Qed.

(** X1: the papers and the reviewers are kept in the order in which the
    preferences file first mentions them, each once. *)
Theorem load_order (rows : list pref_row) (st : tables) :
  process_prefs rows = Ok st →
  keys (papers st) = first_seen (map p_paper rows)
  ∧ keys (pc st) = first_seen (map reviewer_name rows).
Proof.
  intros Hst. destruct (process_prefs_keys _ _ _ Hst) as [-> ->]. simpl.
  rewrite !add_keys_first_seen. simpl.
  split; apply filter_all; intros y; apply not_elem_of_nil.
Qed.

Lemma load_order_witness :
  process_prefs rows_three = Ok (loaded rows_three)
  ∧ keys (papers (loaded rows_three)) = first_seen (map p_paper rows_three)
  ∧ keys (pc (loaded rows_three)) = first_seen (map reviewer_name rows_three).
Proof.
  assert (H : process_prefs rows_three = Ok (loaded rows_three)) by (by vm_compute).
  split; [exact H|]. exact (load_order rows_three (loaded rows_three) H).
Defined.

(** The entry of a paper and the email of a reviewer once a row is
    processed. *)
Lemma process_pref_entries st line st' p name :
  process_pref st line = Ok st' →
  odict_get (papers st') p
  = match odict_get (papers st) p with
    | Some info => Some info
    | None => if String.eqb (p_paper line) p
              then Some {| title := p_title line; n_pages := 20 |} else None
    end
  ∧ pc_email <$> odict_get (pc st') name
    = match odict_get (pc st) name with
      | Some info => Some (pc_email info)
      | None => if String.eqb (reviewer_name line) name
                then Some (p_email line) else None
      end.
Proof.
  intros (n & _ & Hpapers & Hpc & _)%process_pref_inv.
  rewrite Hpapers, Hpc. split.
  - destruct (bool_decide_reflect (is_Some (odict_get (papers st) (p_paper line))))
      as [[i Hi]|Hk].
    + destruct (String.eqb_spec (p_paper line) p) as [<-|Hne].
      * by rewrite Hi.
      * by destruct (odict_get (papers st) p).
    + destruct (String.eqb_spec (p_paper line) p) as [<-|Hne].
      * rewrite odict_get_set_eq.
        destruct (odict_get (papers st) (p_paper line)); [|done].
        exfalso. apply Hk. eauto.
      * rewrite odict_get_set_ne by done. by destruct (odict_get (papers st) p).
  - destruct (bool_decide_reflect (is_Some (odict_get (pc st) (reviewer_name line))))
      as [[i Hi]|Hk].
    + destruct (String.eqb_spec (reviewer_name line) name) as [<-|Hne].
      * by rewrite Hi.
      * by destruct (odict_get (pc st) name).
    + destruct (String.eqb_spec (reviewer_name line) name) as [<-|Hne].
      * rewrite odict_get_set_eq.
        destruct (odict_get (pc st) (reviewer_name line)); [|done].
        exfalso. apply Hk. eauto.
      * rewrite odict_get_set_ne by done. by destruct (odict_get (pc st) name).
Qed.

Lemma process_prefs_entries rows p name : ∀ st st',
  for_each process_pref st rows = Ok st' →
  odict_get (papers st') p
  = match odict_get (papers st) p with
    | Some info => Some info
    | None => (λ line, {| title := p_title line; n_pages := 20 |})
              <$> find (λ l, String.eqb (p_paper l) p) rows
    end
  ∧ pc_email <$> odict_get (pc st') name
    = match odict_get (pc st) name with
      | Some info => Some (pc_email info)
      | None => p_email <$> find (λ l, String.eqb (reviewer_name l) name) rows
      end.
Proof.
  induction rows as [|line rows IH]; simpl; intros st st'.
  - intros [= <-]. split; [by destruct (odict_get _ p)|by destruct (odict_get _ name)].
  - intros (s1 & H1 & H2)%result_bind_Ok.
    destruct (IH _ _ H2) as [-> ->].
    destruct (process_pref_entries _ _ _ p name H1) as [E1 E2]. split.
    + rewrite E1. destruct (odict_get (papers st) p); [done|].
      by destruct (String.eqb (p_paper line) p).
    + destruct (odict_get (pc s1) name) as [i1|] eqn:Hi1; simpl in E2.
      * destruct (odict_get (pc st) name); [by injection E2 as ->|].
        destruct (String.eqb (reviewer_name line) name); [|done].
        by injection E2 as ->.
      * destruct (odict_get (pc st) name); [done|].
        by destruct (String.eqb (reviewer_name line) name).
Qed.

(** X2: a paper has the title of the first row that mentions it and 20
    pages, a reviewer the email of the first row that mentions the name;
    nothing else is in the two tables. *)
Theorem first_row_entries (rows : list pref_row) (st : tables) (p name : string) :
  process_prefs rows = Ok st →
  odict_get (papers st) p
  = (λ line, {| title := p_title line; n_pages := 20 |})
    <$> find (λ l, String.eqb (p_paper l) p) rows
  ∧ pc_email <$> odict_get (pc st) name
    = p_email <$> find (λ l, String.eqb (reviewer_name l) name) rows.
Proof. intros Hst. exact (process_prefs_entries rows p name _ _ Hst). Qed.

Lemma first_row_entries_witness :
  process_prefs rows_three = Ok (loaded rows_three)
  ∧ odict_get (papers (loaded rows_three)) "2"
    = (λ line, {| title := p_title line; n_pages := 20 |})
      <$> find (λ l, String.eqb (p_paper l) "2") rows_three
  ∧ pc_email <$> odict_get (pc (loaded rows_three)) "Bob B"
    = p_email <$> find (λ l, String.eqb (reviewer_name l) "Bob B") rows_three.
Proof.
  assert (H : process_prefs rows_three = Ok (loaded rows_three)) by (by vm_compute).
  split; [exact H|].
  exact (first_row_entries rows_three (loaded rows_three) "2" "Bob B" H).
Defined.

Lemma odict_get_elem_of {V} (d : list (string * V)) k v :
  odict_get d k = Some v → (k, v) ∈ d.
Proof.
  unfold odict_get. induction d as [|[k0 v0] d IH]; simpl; [done|].
  destruct (String.eqb_spec k0 k) as [->|Hne]; simpl.
  - intros [= ->]. by left.
  - intros H. right. by apply IH.
Qed.

Lemma process_pref_reviewers st line st' :
  reviewers_ok st → process_pref st line = Ok st' → reviewers_ok st'.
Proof.
  intros (Hnum & Hmail & Hpc) (n & _ & _ & Epc & _ & _ & _ & Eemail)%process_pref_inv.
  unfold reviewers_ok. rewrite Epc, Eemail.
  destruct (bool_decide_reflect (is_Some (odict_get (pc st) (reviewer_name line))))
    as [Hk|Hk]; [done|].
  assert (Hnone : odict_get (pc st) (reviewer_name line) = None).
  { destruct (odict_get (pc st) (reviewer_name line)); [|done]. exfalso. apply Hk. eauto. }
  rewrite odict_set_new by done. split; [|split].
  - intros i name info Hi. apply lookup_app_Some in Hi as [Hi|[Hlen Hi]].
    + by apply (Hnum i name).
    + apply list_lookup_singleton_Some in Hi as [Hi [= <- <-]]. simpl.
      replace i with (length (pc st)) by lia. done.
  - intros e name He. rewrite <- odict_set_new by done.
    destruct (decide (p_email line = e)) as [<-|Hne].
    + rewrite lookup_insert_eq in He. injection He as <-.
      rewrite odict_get_set_eq. eauto.
    + rewrite lookup_insert_ne in He by done.
      destruct (Hmail e name He) as (info & Hinfo & <-).
      exists info. split; [|done]. rewrite odict_get_set_ne; [done|].
      intros <-. congruence.
  - intros name info. rewrite <- odict_set_new by done.
    destruct (decide (reviewer_name line = name)) as [<-|Hne].
    + rewrite odict_get_set_eq. intros [= <-]. simpl. rewrite lookup_insert_eq. eauto.
    + rewrite odict_get_set_ne by done. intros Hinfo.
      apply lookup_insert_is_Some'. right. by apply (Hpc name).
Qed.

(** X3: the reviewers are numbered 1, 2, ... in their order; every email
    of the email map leads to a reviewer of the table who has this email,
    and the email of every reviewer is a key of the map. *)
Theorem reviewers_numbered (rows : list pref_row) (st : tables) :
  process_prefs rows = Ok st → reviewers_ok st.
Proof.
  apply (for_each_invariant process_pref reviewers_ok).
  - intros s x s'. apply process_pref_reviewers.
  - split; [|split]; simpl.
    + intros i name info. by rewrite lookup_nil.
    + intros e name. by rewrite lookup_empty.
    + by intros name info.
Qed.

Lemma reviewers_numbered_witness :
  process_prefs rows_three = Ok (loaded rows_three)
  ∧ reviewers_ok (loaded rows_three).
Proof.
  assert (H : process_prefs rows_three = Ok (loaded rows_three)) by (by vm_compute).
  split; [exact H|]. exact (reviewers_numbered rows_three (loaded rows_three) H).
Defined.

(* ===================================================================== *)
(** * Rows that do not load *)
(* ===================================================================== *)

Lemma int_raises text e : int text = Raise e → e = ValueError.
Proof.
  unfold int. cbv zeta.
  match goal with |- match ?x with _ => _ end = _ → _ => destruct x end;
    by intros [= <-].
Qed.

Lemma int_cases text : succeeds (int text) ∨ int text = Raise ValueError.
Proof.
  destruct (int text) as [n|e] eqn:E; [left; by exists n|].
  right. by apply int_raises in E as ->.
Qed.

Lemma signal_score_text line :
  fst (signal line)
  = if String.eqb (p_conflict line) "conflict" then "-100" else score_text line.
Proof.
  unfold signal, score_text.
  by destruct (String.eqb (p_conflict line) "conflict"),
              (String.eqb (p_preference line) "").
Qed.

Lemma process_pref_succeeds st line :
  succeeds (process_pref st line) ↔ succeeds (int (fst (signal line))).
Proof.
  unfold process_pref. destruct (signal line) as [score ty]. simpl.
  destruct (int score) as [n|e]; simpl.
  - split; intros _; eexists; done.
  - split; intros [? ?]; discriminate.
Qed.

Lemma process_pref_raises st line e :
  process_pref st line = Raise e → e = ValueError.
Proof.
  unfold process_pref. destruct (signal line) as [score ty]. simpl.
  destruct (int score) as [n|e'] eqn:E; simpl; [discriminate|].
  intros [= <-]. by apply int_raises in E.
Qed.

Lemma process_prefs_raises rows : ∀ st e,
  for_each process_pref st rows = Raise e → e = ValueError.
Proof.
  induction rows as [|line rows IH]; simpl; intros st e; [discriminate|].
  destruct (process_pref st line) as [s1|e1] eqn:E; simpl.
  - apply IH.
  - intros [= <-]. by apply process_pref_raises in E.
Qed.

(** X4: the preferences file loads exactly when every row is a conflict
    row or has an integer literal as its preference, or as its topic score
    when the preference is empty. *)
Theorem loads_iff_scores_parse (rows : list pref_row) :
  succeeds (process_prefs rows)
  ↔ Forall (λ line, p_conflict line = "conflict"
                    ∨ succeeds (int (score_text line))) rows.
Proof.
  unfold process_prefs. generalize empty_tables.
  induction rows as [|line rows IH]; intros st; simpl.
  - split; [constructor|]. intros _. by exists st.
  - rewrite Forall_cons. rewrite <- (IH st) at 1.
    pose proof (process_pref_succeeds st line) as Hline.
    rewrite signal_score_text in Hline.
    destruct (process_pref st line) as [s1|e] eqn:E; simpl.
    + rewrite (IH s1), <- (IH st). split; [|tauto]. intros H. split; [|done].
      destruct (proj1 Hline) as [n Hn]; [by eexists|].
      destruct (String.eqb_spec (p_conflict line) "conflict"); [by left|].
      right. by exists n.
    + split; [by intros [? ?]|]. intros [[Hc|Hs] _]; exfalso.
      * apply String.eqb_eq in Hc. rewrite Hc in Hline.
        destruct (proj2 Hline) as [? ?]; [by exists (-100)|discriminate].
      * destruct (String.eqb (p_conflict line) "conflict").
        -- destruct (proj2 Hline) as [? ?]; [by exists (-100)|discriminate].
        -- destruct (proj2 Hline Hs) as [? ?]. discriminate.
Qed.

(** X5: when the preferences file does not load, the run stops with
    [ValueError] and has written the header only. *)
Theorem bad_score_aborts (opts : options) (pref_file : list pref_row)
    (assign_file : option (list assign_row))
    (lengths_file : option (list length_row)) :
  ¬ succeeds (process_prefs pref_file) →
  run opts pref_file assign_file lengths_file = (header opts, Raise ValueError).
Proof.
  intros Hfail. apply run_load_raises. unfold load.
  destruct (process_prefs pref_file) as [st|e] eqn:E.
  - exfalso. apply Hfail. by exists st.
  - apply process_prefs_raises in E as ->. done.
Qed.

Lemma bad_score_aborts_witness :
  ¬ succeeds (process_prefs [pref_line "1" "Ann" "A" "" "" ""])
  ∧ run default_options [pref_line "1" "Ann" "A" "" "" ""] None None
    = (header default_options, Raise ValueError).
Proof.
  assert (H : ¬ succeeds (process_prefs [pref_line "1" "Ann" "A" "" "" ""])).
  { intros [st Hst]. by vm_compute in Hst. }
  split; [exact H|].
  exact (bad_score_aborts default_options _ None None H).
Defined.

(* ===================================================================== *)
(** * Printing and reading a score *)
(* ===================================================================== *)










(* ===================================================================== *)
(** * More on the lengths and assignment files *)
(* ===================================================================== *)

Lemma process_length_inv st line st' :
  process_length st line = Ok st' →
  ∃ n info,
    int (l_Pages line) = Ok n
    ∧ odict_get (papers st) (l_ID line) = Some info
    ∧ papers st' = odict_set (papers st) (l_ID line)
                     {| title := title info; n_pages := n |}.
Proof.
  unfold process_length.
  destruct (int (l_Pages line)) as [n|e]; simpl; [|discriminate].
  destruct (odict_get (papers st) (l_ID line)) as [info|]; [|discriminate].
  intros [= <-]. by exists n, info.
Qed.

Lemma process_lengths_papers rows p : ∀ st st',
  for_each process_length st rows = Ok st' →
  match odict_get (papers st') p, odict_get (papers st) p with
  | Some info', Some info =>
      title info' = title info
      ∧ match last (filter (λ l, l_ID l = p) rows) with
        | Some line => int (l_Pages line) = Ok (n_pages info')
        | None => n_pages info' = n_pages info
        end
  | None, None => True
  | _, _ => False
  end.
Proof.
  induction rows as [|line rows IH]; intros st st'.
  - simpl. intros [= <-]. by destruct (odict_get (papers st) p).
  - cbn [for_each]. intros (s1 & H1 & H2)%result_bind_Ok.
    specialize (IH _ _ H2).
    destruct (process_length_inv _ _ _ H1) as (n & info0 & Hn & Hget & Hpapers).
    rewrite filter_cons.
    destruct (decide (l_ID line = p)) as [<-|Hne].
    + rewrite Hpapers, odict_get_set_eq in IH. rewrite Hget.
      destruct (odict_get (papers st') (l_ID line)) as [info'|]; [|done].
      destruct IH as [Ht IH]. split; [done|].
      rewrite last_cons. destruct (last _); [done|].
      simpl in IH. by rewrite IH.
    + rewrite Hpapers, odict_get_set_ne in IH by done. done.
Qed.

(** X7: the lengths file changes page counts only: the papers, their order
    and their titles stay, and a paper has the page count of the last row
    with its ID, or the one it had when there is no such row. *)
Theorem lengths_overlay (st st' : tables) (rows : list length_row) (p : string) :
  process_lengths st (Some rows) = Ok st' →
  keys (papers st') = keys (papers st)
  ∧ match odict_get (papers st') p, odict_get (papers st) p with
    | Some info', Some info =>
        title info' = title info
        ∧ match last (filter (λ l, l_ID l = p) rows) with
          | Some line => int (l_Pages line) = Ok (n_pages info')
          | None => n_pages info' = n_pages info
          end
    | None, None => True
    | _, _ => False
    end.
Proof.
  simpl. intros Hst. split; [|by apply process_lengths_papers].
  revert st Hst. induction rows as [|line rows IH]; simpl; intros st.
  - by intros [= <-].
  - intros (s1 & H1 & H2)%result_bind_Ok. rewrite (IH _ H2).
    destruct (process_length_inv _ _ _ H1) as (n & info & _ & Hget & ->).
    apply keys_odict_set_old. rewrite Hget. eauto.
Qed.

Lemma lengths_overlay_witness :
  let st := loaded rows_three in
  let rows := [{| l_ID := "2"; l_Pages := "12" |};
               {| l_ID := "1"; l_Pages := "30" |};
               {| l_ID := "2"; l_Pages := "14" |}] in
  let st' := match process_lengths st (Some rows) with
             | Ok st' => st' | Raise _ => st end in
  process_lengths st (Some rows) = Ok st'
  ∧ odict_get (papers st') "2" = Some {| title := "Paper 2"; n_pages := 14 |}
  ∧ keys (papers st') = keys (papers st)
  ∧ match odict_get (papers st') "2", odict_get (papers st) "2" with
    | Some info', Some info =>
        title info' = title info
        ∧ match last (filter (λ l, l_ID l = "2") rows) with
          | Some line => int (l_Pages line) = Ok (n_pages info')
          | None => n_pages info' = n_pages info
          end
    | None, None => True
    | _, _ => False
    end.
Proof.
  intros st rows st'.
  assert (H : process_lengths st (Some rows) = Ok st') by (by vm_compute).
  split; [exact H|]. split; [by vm_compute|].
  exact (lengths_overlay st st' rows "2" H).
Defined.

Lemma process_length_succeeds st line :
  succeeds (process_length st line)
  ↔ l_ID line ∈ keys (papers st) ∧ succeeds (int (l_Pages line)).
Proof.
  rewrite <- odict_get_Some_keys. unfold process_length.
  destruct (int (l_Pages line)) as [n|e]; simpl.
  - destruct (odict_get (papers st) (l_ID line)) as [info|].
    + split; intros _; [split|]; eexists; done.
    + split; [by intros [? ?]|]. by intros [[? ?] _].
  - split; [by intros [? ?]|]. by intros [_ [? ?]].
Qed.

(** X8: the lengths file is accepted exactly when every row names a paper
    of the preferences file and has an integer literal as its page count. *)
Theorem lengths_accepted_iff (st : tables) (rows : list length_row) :
  succeeds (process_lengths st (Some rows))
  ↔ Forall (λ line, l_ID line ∈ keys (papers st)
                    ∧ succeeds (int (l_Pages line))) rows.
Proof.
  simpl. revert st. induction rows as [|line rows IH]; intros st; simpl.
  - split; [constructor|]. intros _. by exists st.
  - rewrite Forall_cons, <- process_length_succeeds.
    destruct (process_length st line) as [s1|e] eqn:E; simpl.
    + rewrite (IH s1).
      destruct (process_length_inv _ _ _ E) as (n & info & _ & Hget & Hp).
      assert (Hk : keys (papers s1) = keys (papers st)).
      { rewrite Hp. apply keys_odict_set_old. rewrite Hget. eauto. }
      rewrite Hk. split; [|tauto]. intros H. split; [by eexists|done].
    + split; [by intros [? ?]|]. by intros [[? ?] _].
Qed.

Lemma process_assign_marks st line st' p name :
  process_assign st line = Ok st' →
  is_Some (lookup2 (assigned st') p name)
  ↔ is_Some (lookup2 (assigned st) p name)
    ∨ (a_action line = "primary" ∧ a_paper line = p
       ∧ email st !! a_email line = Some name).
Proof.
  unfold process_assign.
  destruct (String.eqb_spec (a_action line) "primary") as [Hact|Hact].
  2: { intros [= <-]. split; [auto|]. by intros [?|[? _]]. }
  unfold getitem.
  destruct (assigned st !! a_paper line) as [row|] eqn:Hrow; simpl; [|discriminate].
  destruct (email st !! a_email line) as [who|] eqn:Hwho; simpl; [|discriminate].
  intros [= <-]. simpl. unfold lookup2.
  destruct (decide (a_paper line = p)) as [<-|Hp].
  - rewrite lookup_insert_eq, Hrow. simpl.
    destruct (decide (who = name)) as [<-|Hn].
    + rewrite lookup_insert_eq. split; eauto.
    + rewrite lookup_insert_ne by done. split; [auto|].
      intros [?|(_ & _ & [= ?])]; done.
  - rewrite lookup_insert_ne by done. split; [auto|]. by intros [?|(_ & ? & _)].
Qed.

Lemma process_assigns_marks rows p name : ∀ st st',
  for_each process_assign st rows = Ok st' →
  is_Some (lookup2 (assigned st') p name)
  ↔ is_Some (lookup2 (assigned st) p name)
    ∨ Exists (λ line, a_action line = "primary" ∧ a_paper line = p
                      ∧ email st !! a_email line = Some name) rows.
Proof.
  induction rows as [|line rows IH]; simpl; intros st st'.
  - intros [= <-]. rewrite Exists_nil. tauto.
  - intros (s1 & H1 & H2)%result_bind_Ok.
    rewrite (IH _ _ H2), (process_assign_marks _ _ _ p name H1), Exists_cons.
    assert (Hemail : email s1 = email st).
    { revert H1. unfold process_assign, getitem.
      destruct (String.eqb _ _); [|by intros [= <-]].
      destruct (assigned st !! _); simpl; [|discriminate].
      destruct (email st !! _); simpl; [|discriminate]. by intros [= <-]. }
    rewrite Hemail. tauto.
Qed.

Lemma process_pref_unassigned st line st' :
  (∀ p name, lookup2 (assigned st) p name = None) →
  process_pref st line = Ok st' →
  ∀ p name, lookup2 (assigned st') p name = None.
Proof.
  intros Hnone (n & _ & _ & _ & _ & _ & Hassigned & _)%process_pref_inv p name.
  rewrite Hassigned. destruct (bool_decide _); [apply Hnone|].
  unfold lookup2. destruct (decide (p_paper line = p)) as [<-|Hne].
  - by rewrite lookup_insert_eq.
  - rewrite lookup_insert_ne by done. apply Hnone.
Qed.

Lemma process_prefs_unassigned rows st p name :
  process_prefs rows = Ok st → lookup2 (assigned st) p name = None.
Proof.
  intros Hst. revert p name.
  apply (for_each_invariant process_pref
           (λ st, ∀ p name, lookup2 (assigned st) p name = None)
           rows process_pref_unassigned empty_tables st); [|done].
  intros p name. unfold lookup2. simpl. by rewrite lookup_empty.
Qed.

Lemma process_lengths_assigned st lengths_file st' :
  process_lengths st lengths_file = Ok st' → assigned st' = assigned st.
Proof.
  destruct lengths_file as [rows|]; simpl; [|by intros [= <-]].
  revert st. induction rows as [|line rows IH]; simpl; intros st.
  - by intros [= <-].
  - intros (s1 & H1 & H2)%result_bind_Ok. rewrite (IH _ H2).
    revert H1. unfold process_length.
    destruct (int _); simpl; [|discriminate].
    destruct (odict_get _ _); [|discriminate]. by intros [= <-].
Qed.

(** X9: after the three files are read, a reviewer is marked as assigned
    to a paper exactly when a primary row of the assignment file names the
    paper and an email that the email map resolves to this reviewer; rows
    with another action mark nothing. *)
Theorem assigned_iff_primary_row (pref_file : list pref_row)
    (rows : list assign_row) (lengths_file : option (list length_row))
    (st : tables) (p name : string) :
  load pref_file (Some rows) lengths_file = Ok st →
  is_Some (lookup2 (assigned st) p name)
  ↔ Exists (λ line, a_action line = "primary" ∧ a_paper line = p
                    ∧ email st !! a_email line = Some name) rows.
Proof.
  unfold load. intros (s1 & H1 & H2)%result_bind_Ok.
  apply result_bind_Ok in H2 as (s2 & H2 & H3).
  pose proof (process_prefs_ok _ _ H1) as Hok1.
  destruct (process_lengths_ok _ _ _ Hok1 H2) as (Hok2 & _ & _ & _ & _).
  destruct (process_assigns_ok _ _ _ Hok2 H3) as (_ & _ & _ & Hemail & _).
  simpl in H3. rewrite (process_assigns_marks _ p name _ _ H3), Hemail.
  rewrite (process_lengths_assigned _ _ _ H2).
  rewrite (process_prefs_unassigned _ _ p name H1).
  split; [|auto]. intros [[? ?]|?]; [discriminate|done].
Qed.

Lemma assigned_iff_primary_row_witness :
  let rows := [{| a_action := "secondary"; a_email := "Bob@example.org";
                  a_paper := "1" |}; assign_ann] in
  let st := match load rows_three (Some rows) None with
            | Ok st => st | Raise _ => empty_tables end in
  load rows_three (Some rows) None = Ok st
  ∧ is_Some (lookup2 (assigned st) "1" "Ann A")
  ∧ ¬ is_Some (lookup2 (assigned st) "1" "Bob B")
  ∧ (is_Some (lookup2 (assigned st) "1" "Ann A")
     ↔ Exists (λ line, a_action line = "primary" ∧ a_paper line = "1"
                       ∧ email st !! a_email line = Some "Ann A") rows).
Proof.
  intros rows st.
  assert (H : load rows_three (Some rows) None = Ok st) by (by vm_compute).
  split; [exact H|]. split.
  { vm_compute. eauto. }
  split.
  { intros [? Hs]. vm_compute in Hs. done. }
  exact (assigned_iff_primary_row rows_three rows None st "1" "Ann A" H).
Defined.

Lemma process_assign_succeeds st line :
  tables_ok st →
  succeeds (process_assign st line)
  ↔ (a_action line = "primary" →
     a_paper line ∈ keys (papers st) ∧ is_Some (email st !! a_email line)).
Proof.
  intros Hok. rewrite <- (ok_assigned_dom _ Hok). unfold process_assign, getitem.
  destruct (String.eqb_spec (a_action line) "primary") as [Hact|Hact].
  2: { split; [done|]. intros _. by eexists. }
  destruct (assigned st !! a_paper line) as [row|]; simpl.
  - destruct (email st !! a_email line) as [who|]; simpl.
    + split; [eauto|]. intros _. by eexists.
    + split; [by intros [? ?]|]. intros H. by destruct (H Hact) as [_ [? ?]].
  - split; [by intros [? ?]|]. intros H. by destruct (H Hact) as [[? ?] _].
Qed.

(** X10: the assignment file is accepted exactly when every primary row
    names a paper of the preferences file and an email of the email map;
    rows with another action are never looked at. *)
Theorem assignment_accepted_iff (pref_file : list pref_row) (st : tables)
    (rows : list assign_row) :
  process_prefs pref_file = Ok st →
  succeeds (process_assigns st (Some rows))
  ↔ Forall (λ line, a_action line = "primary" →
                    a_paper line ∈ keys (papers st)
                    ∧ is_Some (email st !! a_email line)) rows.
Proof.
  intros Hst. apply process_prefs_ok in Hst. simpl.
  revert st Hst. induction rows as [|line rows IH]; intros st Hok; simpl.
  - split; [constructor|]. intros _. by exists st.
  - rewrite Forall_cons, <- (process_assign_succeeds st line Hok).
    destruct (process_assign st line) as [s1|e] eqn:E; simpl.
    + destruct (process_assign_ok _ _ _ Hok E) as (Hok1 & _ & _ & Hemail & _ & Hp).
      rewrite (IH s1 Hok1), Hemail, Hp. split; [|tauto].
      intros H. split; [by eexists|done].
    + split; [by intros [? ?]|]. by intros [[? ?] _].
Qed.

Lemma assignment_accepted_iff_witness :
  process_prefs rows_three = Ok (loaded rows_three)
  ∧ (succeeds (process_assigns (loaded rows_three) (Some [assign_ann; assign_nobody]))
     ↔ Forall (λ line, a_action line = "primary" →
                       a_paper line ∈ keys (papers (loaded rows_three))
                       ∧ is_Some (email (loaded rows_three) !! a_email line))
              [assign_ann; assign_nobody]).
Proof.
  assert (H : process_prefs rows_three = Ok (loaded rows_three)) by (by vm_compute).
  split; [exact H|].
  exact (assignment_accepted_iff rows_three (loaded rows_three)
           [assign_ann; assign_nobody] H).
Defined.

(* ===================================================================== *)
(** * More on scaling *)
(* ===================================================================== *)

Lemma bounds_of_reviewer b st name info mn mx :
  (name, info) ∈ compute_bounds b st →
  pc_min info = Some mn → pc_max info = Some mx →
  (mn, mx) = (if b then individual_minmax st name else (-20, 20)).
Proof.
  intros (i & _ & ->)%elem_of_compute_bounds. simpl.
  intros [= <-] [= <-]. destruct b; [|done]. by destruct (individual_minmax st name).
Qed.

Lemma bounds_ordered (b : bool) st name (mn mx : Z) :
  (mn, mx) = (if b then individual_minmax st name else (-20, 20)) →
  mn <= 0 <= mx.
Proof.
  destruct b; [|intros [= -> ->]; lia].
  intros H. symmetry in H.
  destruct (minmax_fold _ _ _ _ _ _ _ H) as (_ & _ & ? & ? & _). lia.
Qed.

(** X11: whatever the scaling mode, a pair has a scaled intensity exactly
    when it has a raw score above -100. *)
Theorem scaled_iff_score_above_sentinel (pref_file : list pref_row)
    (assign_file : option (list assign_row))
    (lengths_file : option (list length_row)) (opt_scale : bool)
    (st : tables) (prefs_scaled : gmap string (gmap string Z))
    (p name : string) :
  load pref_file assign_file lengths_file = Ok st →
  compute_prefs_scaled (prefs st) (keys (papers st)) (compute_bounds opt_scale st)
    = Ok prefs_scaled →
  is_Some (lookup2 prefs_scaled p name)
  ↔ ∃ raw, lookup2 (prefs st) p name = Some raw ∧ -100 < raw.
Proof.
  intros Hload Htbl. pose proof (load_ok _ _ _ _ Hload) as Hok. split.
  - intros [v Hv].
    destruct (compute_prefs_scaled_sound _ _ _ _ _ _ _ Htbl Hv)
      as (_ & _ & raw & _ & _ & _ & Hraw & Hlt & _).
    by exists raw.
  - intros (raw & Hraw & Hlt).
    assert (Hname : name ∈ keys (pc st)).
    { apply (ok_pref_pc _ Hok p). rewrite Hraw. eauto. }
    assert (Hp : p ∈ keys (papers st)).
    { apply (ok_prefs_dom _ Hok). unfold lookup2 in Hraw.
      destruct (prefs st !! p); [eauto|discriminate]. }
    rewrite <- (keys_compute_bounds opt_scale) in Hname.
    apply list_elem_of_fmap in Hname as ([n info] & -> & Hin).
    destruct (compute_prefs_scaled_complete _ _ _ _ p n info raw
                (compute_bounds_nodup opt_scale st Hok) Htbl Hp Hin Hraw Hlt)
      as (mn & mx & v & _ & _ & _ & Hv).
    simpl. rewrite Hv. eauto.
Qed.

Lemma scaled_iff_score_above_sentinel_witness :
  let st := loaded rows_minus_100 in
  load rows_minus_100 None None = Ok st
  ∧ compute_prefs_scaled (prefs st) (keys (papers st)) (compute_bounds true st)
    = Ok (scaled true st)
  ∧ (is_Some (lookup2 (scaled true st) "2" "Ann A")
     ↔ ∃ raw, lookup2 (prefs st) "2" "Ann A" = Some raw ∧ -100 < raw).
Proof.
  intros st.
  assert (H1 : load rows_minus_100 None None = Ok st) by (by vm_compute).
  assert (H2 : compute_prefs_scaled (prefs st) (keys (papers st))
                 (compute_bounds true st) = Ok (scaled true st))
    by (by vm_compute).
  split; [exact H1|]. split; [exact H2|].
  exact (scaled_iff_score_above_sentinel _ None None true st _ "2" "Ann A" H1 H2).
Defined.



Lemma scaled_step_raises prefs p row item e :
  scaled_step prefs p row item = Raise e →
  (∃ mn mx, pc_min (snd item) = Some mn ∧ pc_max (snd item) = Some mx) →
  e = ZeroDivisionError.
Proof.
  destruct item as [name info]. simpl. intros H (mn & mx & Hmn & Hmx).
  rewrite Hmn, Hmx in H. simpl in H.
  destruct (lookup2 prefs p name) as [raw|]; [|discriminate].
  destruct (-100 <? raw); [|discriminate].
  unfold scale in H. destruct (mx - mn =? 0); [by injection H as <-|discriminate].
Qed.

Lemma compute_prefs_scaled_raises prefs papers pcs e :
  (∀ name info, (name, info) ∈ pcs →
     ∃ mn mx, pc_min info = Some mn ∧ pc_max info = Some mx) →
  compute_prefs_scaled prefs papers pcs = Raise e → e = ZeroDivisionError.
Proof.
  intros Hb. unfold compute_prefs_scaled.
  generalize (∅ : gmap string (gmap string Z)).
  induction papers as [|p papers IH]; simpl; intros tbl; [discriminate|].
  destruct (for_each (scaled_step prefs p) ∅ pcs) as [row|e'] eqn:Hrow; simpl.
  - apply IH.
  - intros [= <-]. clear IH. revert Hrow. generalize (∅ : gmap string Z).
    induction pcs as [|item pcs IH]; simpl; intros row; [discriminate|].
    destruct (scaled_step prefs p row item) as [row1|e1] eqn:Hstep; simpl.
    + apply IH. intros n i Hin. apply (Hb n). by right.
    + intros [= <-]. apply (scaled_step_raises _ _ _ _ _ Hstep).
      destruct item as [n i]. apply (Hb n i). by left.
Qed.

Lemma scored_elem_of st name raw :
  raw ∈ scored st name
  ↔ ∃ p, p ∈ keys (papers st) ∧ lookup2 (prefs st) p name = Some raw ∧ -100 < raw.
Proof.
  unfold scored, observed_scores.
  rewrite list_elem_of_filter, list_elem_of_omap. split.
  - intros (Hlt & p & Hp & Hraw). by exists p.
  - intros (p & Hp & Hraw & Hlt). split; [done|]. by exists p.
Qed.

Lemma adaptive_bounds_spec st name mn mx :
  individual_minmax st name = (mn, mx) →
  (mn = 0 ∨ mn ∈ scored st name) ∧ (mx = 0 ∨ mx ∈ scored st name)
  ∧ mn <= 0 <= mx ∧ (∀ s, s ∈ scored st name → mn <= s <= mx).
Proof.
  intros H. destruct (minmax_fold _ _ _ _ _ _ _ H) as (H1 & H2 & H3 & H4 & H5).
  split; [exact H1|]. split; [exact H2|]. split; [lia|exact H5].
Qed.

(** X13: with [--scale] the scaling succeeds exactly when no reviewer has
    scores above -100 that are all 0; otherwise it stops with
    [ZeroDivisionError]. *)
Theorem adaptive_scaling_succeeds_iff (pref_file : list pref_row)
    (assign_file : option (list assign_row))
    (lengths_file : option (list length_row)) (st : tables) :
  load pref_file assign_file lengths_file = Ok st →
  (succeeds (compute_prefs_scaled (prefs st) (keys (papers st))
               (compute_bounds true st))
   ↔ ∀ name, scored st name = [] ∨ Exists (λ s, s ≠ 0) (scored st name))
  ∧ (∀ e, compute_prefs_scaled (prefs st) (keys (papers st))
            (compute_bounds true st) = Raise e → e = ZeroDivisionError).
Proof.
  intros Hload. pose proof (load_ok _ _ _ _ Hload) as Hok. split; [split|].
  - intros [tbl Htbl] name.
    destruct (scored st name) as [|s0 l] eqn:Hsc; [by left|right].
    assert (Hs0 : s0 ∈ scored st name) by (rewrite Hsc; by left).
    destruct (proj1 (scored_elem_of _ _ _) Hs0) as (p & Hp & Hraw & Hlt).
    assert (Hname : name ∈ keys (pc st)).
    { apply (ok_pref_pc _ Hok p). rewrite Hraw. eauto. }
    rewrite <- (keys_compute_bounds true) in Hname.
    apply list_elem_of_fmap in Hname as ([n info] & -> & Hin). simpl in *.
    destruct (compute_prefs_scaled_complete _ _ _ _ p n info s0
                (compute_bounds_nodup true st Hok) Htbl Hp Hin Hraw Hlt)
      as (mn & mx & v & Hmn & Hmx & Hscale & _).
    apply scale_inv in Hscale as [Hne _].
    pose proof (bounds_of_reviewer _ _ _ _ _ _ Hin Hmn Hmx) as Hb. symmetry in Hb.
    destruct (adaptive_bounds_spec _ _ _ _ Hb) as ([->|Hm] & [->|Hx] & _ & _).
    + done.
    + rewrite <- Hsc. apply Exists_exists. exists mx. split; [done|]. by intros ->.
    + rewrite <- Hsc. apply Exists_exists. exists mn. split; [done|]. by intros ->.
    + rewrite <- Hsc. apply Exists_exists.
      destruct (decide (mn = 0)) as [->|?]; [exists mx|exists mn];
        (split; [done|]); [by intros ->|done].
  - intros Hall. apply compute_prefs_scaled_total.
    intros p name info raw Hp Hin Hraw Hlt.
    apply elem_of_compute_bounds in Hin as (i & _ & ->). simpl.
    destruct (individual_minmax st name) as [mn mx] eqn:Hb. simpl.
    exists mn, mx. split; [done|]. split; [done|].
    destruct (adaptive_bounds_spec _ _ _ _ Hb) as (_ & _ & H0 & Hbound).
    assert (Hs : raw ∈ scored st name) by (apply scored_elem_of; eauto).
    destruct (Hall name) as [Hnil|Hex].
    + rewrite Hnil in Hs. by apply elem_of_nil in Hs.
    + apply Exists_exists in Hex as (s & Hs' & Hne).
      specialize (Hbound s Hs'). lia.
  - intros e. apply compute_prefs_scaled_raises.
    intros name info (i & _ & ->)%elem_of_compute_bounds. simpl. eauto.
Qed.

Lemma adaptive_scaling_succeeds_iff_witness :
  let st := loaded rows_mixed in
  load rows_mixed None None = Ok st
  ∧ (succeeds (compute_prefs_scaled (prefs st) (keys (papers st))
                 (compute_bounds true st))
     ↔ ∀ name, scored st name = [] ∨ Exists (λ s, s ≠ 0) (scored st name))
  ∧ (∀ e, compute_prefs_scaled (prefs st) (keys (papers st))
            (compute_bounds true st) = Raise e → e = ZeroDivisionError).
Proof.
  intros st.
  assert (H : load rows_mixed None None = Ok st) by (by vm_compute).
  split; [exact H|].
  exact (adaptive_scaling_succeeds_iff rows_mixed None None st H).
Defined.



Lemma scale_monotone raw1 raw2 mn mx v1 v2 :
  mn < mx → raw1 <= raw2 →
  scale raw1 mn mx = Ok v1 → scale raw2 mn mx = Ok v2 → v1 <= v2.
Proof.
  intros Hlt Hle [_ ->]%scale_inv [_ ->]%scale_inv.
  assert (Z.quot (100 * (raw1 - mn)) (mx - mn) <= Z.quot (100 * (raw2 - mn)) (mx - mn)).
  { apply Z.quot_le_mono; lia. }
  lia.
Qed.

(** X15: in both scaling modes the intensity is monotone in the raw score
    of a reviewer: a paper the reviewer scores at least as high has an
    intensity at least as high. *)
Theorem intensity_monotone (pref_file : list pref_row)
    (assign_file : option (list assign_row))
    (lengths_file : option (list length_row)) (opt_scale : bool) (st : tables)
    (prefs_scaled : gmap string (gmap string Z))
    (p1 p2 name : string) (raw1 raw2 v1 v2 : Z) :
  load pref_file assign_file lengths_file = Ok st →
  compute_prefs_scaled (prefs st) (keys (papers st)) (compute_bounds opt_scale st)
    = Ok prefs_scaled →
  lookup2 (prefs st) p1 name = Some raw1 →
  lookup2 (prefs st) p2 name = Some raw2 →
  lookup2 prefs_scaled p1 name = Some v1 →
  lookup2 prefs_scaled p2 name = Some v2 →
  raw1 <= raw2 → v1 <= v2.
Proof.
  intros Hload Htbl Hr1 Hr2 Hv1 Hv2 Hle.
  destruct (compute_prefs_scaled_sound _ _ _ _ _ _ _ Htbl Hv1)
    as (_ & i1 & r1 & mn1 & mx1 & Hin1 & Hr1' & _ & Hmn1 & Hmx1 & Hs1).
  destruct (compute_prefs_scaled_sound _ _ _ _ _ _ _ Htbl Hv2)
    as (_ & i2 & r2 & mn2 & mx2 & Hin2 & Hr2' & _ & Hmn2 & Hmx2 & Hs2).
  assert (r1 = raw1) as -> by congruence. assert (r2 = raw2) as -> by congruence.
  pose proof (bounds_of_reviewer _ _ _ _ _ _ Hin1 Hmn1 Hmx1) as Hb1.
  pose proof (bounds_of_reviewer _ _ _ _ _ _ Hin2 Hmn2 Hmx2) as Hb2.
  assert (mn2 = mn1 ∧ mx2 = mx1) as [-> ->].
  { rewrite <- Hb1 in Hb2. by injection Hb2 as -> ->. }
  pose proof (bounds_ordered _ _ _ _ _ Hb1) as Hord.
  pose proof (proj1 (scale_inv _ _ _ _ Hs1)) as Hne.
  apply (scale_monotone raw1 raw2 mn1 mx1); [lia|done..].
Qed.

Lemma intensity_monotone_witness :
  let st := loaded rows_thirds in
  load rows_thirds None None = Ok st
  ∧ compute_prefs_scaled (prefs st) (keys (papers st)) (compute_bounds false st)
    = Ok (scaled false st)
  ∧ lookup2 (prefs st) "2" "Ann A" = Some 2
  ∧ lookup2 (prefs st) "3" "Ann A" = Some 3
  ∧ lookup2 (scaled false st) "2" "Ann A" = Some 55
  ∧ lookup2 (scaled false st) "3" "Ann A" = Some 57
  ∧ 2 <= 3 ∧ 55 <= 57.
Proof.
  intros st.
  assert (H1 : load rows_thirds None None = Ok st) by (by vm_compute).
  assert (H2 : compute_prefs_scaled (prefs st) (keys (papers st))
                 (compute_bounds false st) = Ok (scaled false st))
    by (by vm_compute).
  assert (H3 : lookup2 (prefs st) "2" "Ann A" = Some 2) by (by vm_compute).
  assert (H4 : lookup2 (prefs st) "3" "Ann A" = Some 3) by (by vm_compute).
  assert (H5 : lookup2 (scaled false st) "2" "Ann A" = Some 55) by (by vm_compute).
  assert (H6 : lookup2 (scaled false st) "3" "Ann A" = Some 57) by (by vm_compute).
  assert (H7 : 2 <= 3) by lia.
  do 7 (split; [assumption|]).
  exact (intensity_monotone _ None None false st _ "2" "3" "Ann A" 2 3 55 57
           H1 H2 H3 H4 H5 H6 H7).
Defined.

(* ===================================================================== *)
(** * More on the distance of two papers *)
(* ===================================================================== *)

Lemma shared_step_sym prefs_scaled p1 p2 acc name :
  shared_step prefs_scaled p1 p2 acc name = shared_step prefs_scaled p2 p1 acc name.
Proof.
  unfold shared_step. destruct acc as [s t].
  destruct (lookup2 prefs_scaled p1 name) as [v1|],
           (lookup2 prefs_scaled p2 name) as [v2|]; try done.
  f_equal. f_equal. lia.
Qed.

Lemma shared_sums_sym prefs_scaled pc p1 p2 :
  shared_sums prefs_scaled pc p1 p2 = shared_sums prefs_scaled pc p2 p1.
Proof.
  unfold shared_sums. generalize (0, 0).
  induction pc as [|name pc IH]; intros acc; simpl; [done|].
  by rewrite shared_step_sym, IH.
Qed.

(** X16: the distance of two papers does not depend on their order, and
    neither does the fault when they share no reviewer. *)
Theorem paper_dist_sym (prefs_scaled : gmap string (gmap string Z))
    (pc : list string) (p1 p2 : string) :
  paper_dist prefs_scaled pc p1 p2 = paper_dist prefs_scaled pc p2 p1.
Proof. unfold paper_dist. by rewrite shared_sums_sym. Qed.





(* ===================================================================== *)
(** * Outcomes of the ordering *)
(* ===================================================================== *)

Lemma paper_dist_raises prefs_scaled pc p1 p2 e :
  paper_dist prefs_scaled pc p1 p2 = Raise e → e = ZeroDivisionError.
Proof.
  unfold paper_dist. destruct (shared_sums prefs_scaled pc p1 p2) as [s t].
  destruct (t =? 0); [by intros [= <-]|discriminate].
Qed.

Lemma for_each_raises {A S} (body : S → A → result S) (bad : exn) l :
  (∀ s x e, body s x = Raise e → e = bad) →
  ∀ s e, for_each body s l = Raise e → e = bad.
Proof.
  intros Hbody. induction l as [|x l IH]; simpl; intros s e; [discriminate|].
  destruct (body s x) as [s1|e1] eqn:E; simpl; [apply IH|].
  intros [= <-]. by apply Hbody in E.
Qed.

Lemma papers_dist_raises prefs_scaled pc l1 l2 e :
  papers_dist prefs_scaled pc l1 l2 = Raise e → e = ZeroDivisionError.
Proof.
  unfold papers_dist.
  destruct (for_each _ _ l1) as [[p t]|e1] eqn:E; simpl.
  - destruct (t =? 0); [by intros [= <-]|discriminate].
  - intros [= <-]. revert E. apply for_each_raises. clear.
    intros acc p1 e. apply for_each_raises. clear.
    intros [p t] p2 e. unfold product_step.
    destruct (paper_dist prefs_scaled pc p1 p2) as [d|e1] eqn:E; simpl;
      [discriminate|].
    intros [= <-]. by apply paper_dist_raises in E.
Qed.

Lemma group_dist_raises prefs_scaled pc groups ij e :
  (fst ij < length groups)%nat → (snd ij < length groups)%nat →
  group_dist prefs_scaled pc groups ij = Raise e → e = ZeroDivisionError.
Proof.
  intros Hi Hj. unfold group_dist, list_getitem.
  destruct (lookup_lt_is_Some_2 _ _ Hi) as [g1 ->].
  destruct (lookup_lt_is_Some_2 _ _ Hj) as [g2 ->]. simpl.
  apply papers_dist_raises.
Qed.

Lemma best_step_raises prefs_scaled pc groups best ij e :
  valid_pair (length groups) best → valid_pair (length groups) ij →
  best_step prefs_scaled pc groups best ij = Raise e → e = ZeroDivisionError.
Proof.
  intros [? ?] [? ?]. unfold best_step.
  destruct (group_dist prefs_scaled pc groups ij) as [d|e1] eqn:E1; simpl.
  - destruct (group_dist prefs_scaled pc groups best) as [d'|e2] eqn:E2; simpl;
      [discriminate|].
    intros [= <-]. apply group_dist_raises in E2; [done|lia..].
  - intros [= <-]. apply group_dist_raises in E1; [done|lia..].
Qed.

Lemma best_fold_raises prefs_scaled pc groups cands : ∀ best e,
  valid_pair (length groups) best →
  (∀ c, c ∈ cands → valid_pair (length groups) c) →
  for_each (best_step prefs_scaled pc groups) best cands = Raise e →
  e = ZeroDivisionError.
Proof.
  induction cands as [|c cands IH]; intros best e Hbest Hall; simpl; [discriminate|].
  assert (Hc : valid_pair (length groups) c) by (apply Hall; by left).
  destruct (best_step prefs_scaled pc groups best c) as [b1|e1] eqn:E; simpl.
  - apply IH; [|intros x Hx; apply Hall; by right].
    by destruct (best_step_cases _ _ _ _ _ _ E) as [->| ->].
  - intros [= <-]. by apply best_step_raises in E.
Qed.

Lemma find_best_raises prefs_scaled pc groups e :
  (2 <= length groups)%nat →
  find_best prefs_scaled pc groups = Raise e → e = ZeroDivisionError.
Proof.
  intros Hlen. apply best_fold_raises.
  - split; simpl; lia.
  - intros c. apply elem_of_scan_pairs.
Qed.

Lemma merged_perm (groups : list (list string)) i j :
  (i < j)%nat → (j < length groups)%nat →
  length (merged groups i j) = (length groups - 1)%nat
  ∧ Permutation (concat (merged groups i j)) (concat groups).
Proof.
  intros Hij Hj.
  destruct (groups_split groups i j Hij Hj) as (gi & gj & Hi & Hgj & Hsplit).
  pose proof (merge_merged groups i j Hij Hj) as Hm.
  unfold merge, list_getitem in Hm. rewrite Hi, Hgj in Hm. simpl in Hm.
  injection Hm as Hm. rewrite <- Hm.
  set (A := take i groups) in *. set (B := drop (i + 1) (take j groups)) in *.
  set (C0 := drop (j + 1) groups) in *. split.
  - rewrite Hsplit at 1. rewrite !length_app. simpl. rewrite !length_app. simpl. lia.
  - rewrite Hsplit at 1. rewrite !concat_app. simpl. rewrite !concat_app. simpl.
    rewrite <- (app_assoc gi gj).
    apply Permutation_app_head, Permutation_app_head.
    rewrite !app_assoc. apply Permutation_app_tail, Permutation_app_comm.
Qed.

Lemma cluster_outcomes prefs_scaled pc fuel : ∀ groups,
  (length groups <= S fuel)%nat →
  ∃ r, cluster prefs_scaled pc fuel groups = Some r
       ∧ match r with
         | Ok groups' =>
             (length groups' <= 1)%nat
             ∧ (groups ≠ [] → groups' ≠ [])
             ∧ Permutation (concat groups') (concat groups)
         | Raise e => e = ZeroDivisionError
         end.
Proof.
  induction fuel as [|fuel IH]; intros groups Hlen.
  - exists (Ok groups). cbn [cluster]. rewrite bool_decide_eq_false_2 by lia.
    split; [done|]. split; [lia|done].
  - cbn [cluster]. case_bool_decide as Hmore.
    2: { exists (Ok groups). split; [done|]. split; [lia|done]. }
    destruct (find_best prefs_scaled pc groups) as [[i j]|e] eqn:Hbest;
      cbn [mbind result_bind].
    2: { exists (Raise e). split; [done|]. apply find_best_raises in Hbest; [done|lia]. }
    apply find_best_valid in Hbest as [Hij Hj]; [|lia]. simpl in Hij, Hj.
    rewrite merge_merged by done.
    destruct (merged_perm groups i j Hij Hj) as [Hl Hp].
    destruct (IH (merged groups i j)) as (r & Hr & Hspec); [lia|].
    exists r. split; [done|]. destruct r as [groups'|e]; [|done].
    destruct Hspec as (? & Hne & Hperm). split; [done|]. split.
    + intros _. apply Hne. intros Hnil. rewrite Hnil in Hl. simpl in Hl. lia.
    + by rewrite Hperm.
Qed.

(** X18: the ordering loop always comes to an end.  When it succeeds the
    order holds every paper exactly as often as the table does; when it
    fails the fault is [ZeroDivisionError], or [IndexError] for an empty
    table; a single paper is returned without any distance being
    computed. *)
Theorem order_papers_outcomes (prefs_scaled : gmap string (gmap string Z))
    (pc papers : list string) :
  match order_papers prefs_scaled pc papers with
  | Ok order => Permutation order papers
  | Raise e => e = ZeroDivisionError ∨ (e = IndexError ∧ papers = [])
  end
  ∧ order_papers prefs_scaled pc [] = Raise IndexError
  ∧ ∀ p, order_papers prefs_scaled pc [p] = Ok [p].
Proof.
  split; [|split; [done|done]].
  unfold order_papers.
  destruct (cluster_outcomes prefs_scaled pc (length (map (λ p, [p]) papers))
              (map (λ p, [p]) papers)) as (r & -> & Hspec); [lia|].
  destruct r as [groups|e]; simpl; [|by left].
  destruct Hspec as (Hlen & Hne & Hperm). rewrite concat_singletons in Hperm.
  destruct groups as [|g [|g' groups]]; simpl in *; [| |lia].
  - right. split; [done|]. destruct papers; [done|].
    exfalso. by apply Hne.
  - by rewrite app_nil_r in Hperm.
Qed.

Lemma position_of (papers : list string) p :
  p ∈ papers → ∃ i, (i < length papers)%nat ∧ map (λ p, [p]) papers !! i = Some [p].
Proof.
  intros (i & Hi)%list_elem_of_lookup_1. exists i. split.
  - by apply lookup_lt_Some in Hi.
  - by rewrite list_lookup_fmap, Hi.
Qed.

Lemma best_fold_fault prefs_scaled pc groups bad cands : ∀ best,
  valid_pair (length groups) best →
  (∀ c, c ∈ cands → valid_pair (length groups) c) →
  bad ∈ cands →
  group_dist prefs_scaled pc groups bad = Raise ZeroDivisionError →
  for_each (best_step prefs_scaled pc groups) best cands = Raise ZeroDivisionError.
Proof.
  induction cands as [|c cands IH]; intros best Hbest Hall Hin Hbad.
  - by apply elem_of_nil in Hin.
  - cbn [for_each].
    assert (Hc : valid_pair (length groups) c) by (apply Hall; by left).
    destruct (best_step prefs_scaled pc groups best c) as [b1|e1] eqn:E;
      cbn [mbind result_bind].
    + apply elem_of_cons in Hin as [->|Hin].
      * unfold best_step in E. rewrite Hbad in E. discriminate.
      * apply IH; [|intros x Hx; apply Hall; by right|done..].
        by destruct (best_step_cases _ _ _ _ _ _ E) as [->| ->].
    + by apply best_step_raises in E as ->.
Qed.

(** X19: when two different papers of the table have no reviewer with a
    scaled entry for both, the ordering stops with [ZeroDivisionError] in
    its first iteration. *)
Theorem order_papers_faults (prefs_scaled : gmap string (gmap string Z))
    (pc papers : list string) (p1 p2 : string) :
  p1 ∈ papers → p2 ∈ papers → p1 ≠ p2 →
  snd (shared_sums prefs_scaled pc p1 p2) = 0 →
  order_papers prefs_scaled pc papers = Raise ZeroDivisionError.
Proof.
  intros H1 H2 Hne Hshared.
  destruct (position_of papers p1 H1) as (i & Hi & Hgi).
  destruct (position_of papers p2 H2) as (j & Hj & Hgj).
  assert (Hij : i ≠ j) by (intros ->; congruence).
  set (groups := map (λ p, [p]) papers) in *.
  assert (Hlen : length groups = length papers) by apply length_map.
  assert (Hfault : ∀ a b pa pb, groups !! a = Some [pa] → groups !! b = Some [pb] →
            snd (shared_sums prefs_scaled pc pa pb) = 0 →
            group_dist prefs_scaled pc groups (a, b) = Raise ZeroDivisionError).
  { intros a b pa pb Ha Hb H0. unfold group_dist, list_getitem. simpl.
    rewrite Ha, Hb. simpl. unfold papers_dist. simpl.
    by rewrite (paper_dist_faults _ _ _ _ H0). }
  assert (Hbest : find_best prefs_scaled pc groups = Raise ZeroDivisionError).
  { unfold find_best.
    destruct (decide (i < j)%nat).
    - apply (best_fold_fault _ _ _ (i, j)).
      + split; simpl; lia.
      + intros c. apply elem_of_scan_pairs.
      + apply elem_of_scan_pairs. split; simpl; lia.
      + by apply (Hfault i j p1 p2).
    - apply (best_fold_fault _ _ _ (j, i)).
      + split; simpl; lia.
      + intros c. apply elem_of_scan_pairs.
      + apply elem_of_scan_pairs. split; simpl; lia.
      + apply (Hfault j i p2 p1); [done..|]. by rewrite shared_sums_sym. }
  unfold order_papers. fold groups. rewrite Hlen.
  destruct (length papers) as [|n] eqn:Hn; [lia|].
  cbn [cluster]. rewrite bool_decide_eq_true_2 by lia. by rewrite Hbest.
Qed.

Lemma order_papers_faults_witness :
  let prefs_scaled := scaled false (loaded rows_disjoint) in
  "1" ∈ ["1"; "2"] ∧ "2" ∈ ["1"; "2"] ∧ "1" ≠ "2"
  ∧ snd (shared_sums prefs_scaled ["Ann A"; "Bob B"] "1" "2") = 0
  ∧ order_papers prefs_scaled ["Ann A"; "Bob B"] ["1"; "2"]
    = Raise ZeroDivisionError.
Proof.
  intros prefs_scaled.
  assert (H1 : "1" ∈ ["1"; "2"]) by (by left).
  assert (H2 : "2" ∈ ["1"; "2"]) by (right; by left).
  assert (H3 : "1" ≠ "2") by done.
  assert (H4 : snd (shared_sums prefs_scaled ["Ann A"; "Bob B"] "1" "2") = 0)
    by (by vm_compute).
  do 4 (split; [assumption|]).
  exact (order_papers_faults prefs_scaled _ _ "1" "2" H1 H2 H3 H4).
Defined.

(* ===================================================================== *)
(** * When a cell is rendered, and when the run succeeds *)
(* ===================================================================== *)

(** The cell of a pair is rendered unless its raw score is below -100. *)
Lemma pretty_outcome pref_file assign_file lengths_file opt_scale st prefs_scaled
    p name :
  load pref_file assign_file lengths_file = Ok st →
  compute_prefs_scaled (prefs st) (keys (papers st)) (compute_bounds opt_scale st)
    = Ok prefs_scaled →
  match lookup2 (prefs st) p name with
  | Some raw =>
      if raw <? -100
      then pretty (with_bounds opt_scale st) prefs_scaled p name = Raise KeyError
      else succeeds (pretty (with_bounds opt_scale st) prefs_scaled p name)
  | None => succeeds (pretty (with_bounds opt_scale st) prefs_scaled p name)
  end.
Proof.
  intros Hload Htbl. pose proof (load_ok _ _ _ _ Hload) as Hok.
  unfold pretty, with_bounds. cbn [prefs prefs_type assigned].
  destruct (lookup2 (prefs st) p name) as [raw|] eqn:Hraw; [|by eexists].
  destruct (proj2 (ok_type_pref _ Hok p name)) as [ty Hty]; [by rewrite Hraw|].
  rewrite Hty. cbn [option_get mbind result_bind].
  destruct (kind_eqb ty TagC) eqn:Hc.
  { assert (ty = TagC) as -> by (by destruct ty).
    rewrite (ok_conflict _ Hok _ _ Hty) in Hraw. injection Hraw as <-.
    simpl. by eexists. }
  destruct (Z.ltb_spec raw (-100)) as [Hlt|Hge].
  - rewrite (proj2 (Z.eqb_neq _ _)) by lia.
    destruct (lookup2 prefs_scaled p name) as [v|] eqn:Hv; [|done].
    destruct (compute_prefs_scaled_sound _ _ _ _ _ _ _ Htbl Hv)
      as (_ & _ & raw' & _ & _ & _ & Hraw' & Hlt' & _).
    rewrite Hraw in Hraw'. injection Hraw' as <-. lia.
  - destruct (Z.eqb_spec raw (-100)) as [->|Hne]; [by eexists|].
    assert (Hp : p ∈ keys (papers st)).
    { apply (ok_prefs_dom _ Hok). unfold lookup2 in Hraw.
      destruct (prefs st !! p); [by eexists|discriminate]. }
    assert (Hname : name ∈ keys (compute_bounds opt_scale st)).
    { rewrite keys_compute_bounds. apply (ok_pref_pc _ Hok p). by rewrite Hraw. }
    apply list_elem_of_fmap in Hname as ([name' info] & -> & Hin). cbn [fst] in *.
    destruct (compute_prefs_scaled_complete _ _ _ _ _ _ _ _
                (compute_bounds_nodup _ _ Hok) Htbl Hp Hin Hraw)
      as (mn & mx & v & _ & _ & _ & ->); [lia|].
    simpl. by eexists.
Qed.

(** X20: once the files are read and the scores scaled, the cell of a
    pair is rendered unless the raw score of the pair is below -100: a
    score below the sentinel has no scaled entry, and the cell stops with
    [KeyError]. *)
Theorem cell_fails_iff_below_sentinel (pref_file : list pref_row)
    (assign_file : option (list assign_row))
    (lengths_file : option (list length_row)) (opt_scale : bool)
    (st : tables) (prefs_scaled : gmap string (gmap string Z))
    (p name : string) :
  load pref_file assign_file lengths_file = Ok st →
  compute_prefs_scaled (prefs st) (keys (papers st)) (compute_bounds opt_scale st)
    = Ok prefs_scaled →
  p ∈ keys (papers st) →
  (pretty (with_bounds opt_scale st) prefs_scaled p name = Raise KeyError
   ↔ ∃ raw, lookup2 (prefs st) p name = Some raw ∧ raw < -100)
  ∧ (¬ succeeds (pretty (with_bounds opt_scale st) prefs_scaled p name)
     → pretty (with_bounds opt_scale st) prefs_scaled p name = Raise KeyError).
Proof.
  intros Hload Htbl _.
  pose proof (pretty_outcome _ _ _ opt_scale _ _ p name Hload Htbl) as H.
  destruct (lookup2 (prefs st) p name) as [raw|] eqn:Hraw.
  - destruct (Z.ltb_spec raw (-100)) as [Hlt|Hge].
    + split; [|done]. split; [|done]. intros _. by exists raw.
    + split; [|by intros []]. destruct H as [cell Hcell]. rewrite Hcell. split.
      * discriminate.
      * intros (raw' & [= <-] & ?). lia.
  - split; [|by intros []]. destruct H as [cell Hcell]. rewrite Hcell. split.
    + discriminate.
    + by intros (raw' & [=] & ?).
Qed.

Lemma cell_fails_iff_below_sentinel_witness :
  let st := loaded rows_below in
  load rows_below None None = Ok st
  ∧ compute_prefs_scaled (prefs st) (keys (papers st)) (compute_bounds false st)
    = Ok (scaled false st)
  ∧ "1" ∈ keys (papers st)
  ∧ (pretty (with_bounds false st) (scaled false st) "1" "Ann A" = Raise KeyError
     ↔ ∃ raw, lookup2 (prefs st) "1" "Ann A" = Some raw ∧ raw < -100)
  ∧ (¬ succeeds (pretty (with_bounds false st) (scaled false st) "1" "Ann A")
     → pretty (with_bounds false st) (scaled false st) "1" "Ann A" = Raise KeyError).
Proof.
  intros st.
  assert (H1 : load rows_below None None = Ok st) by (by vm_compute).
  assert (H2 : compute_prefs_scaled (prefs st) (keys (papers st))
                 (compute_bounds false st) = Ok (scaled false st))
    by (by vm_compute).
  assert (H3 : "1" ∈ keys (papers st)) by (vm_compute; by left).
  split; [exact H1|]. split; [exact H2|]. split; [exact H3|].
  exact (cell_fails_iff_below_sentinel _ None None false st _ "1" "Ann A" H1 H2 H3).
Defined.

Lemma snd_bind {A B} (m : prog A) (f : A → prog B) :
  snd (m ≫= f) = match snd m with
                 | Ok a => snd (f a)
                 | Raise e => Raise e
                 end.
Proof.
  destruct m as [out [a|e]]; [|done].
  cbn [mbind prog_bind snd]. by destruct (f a).
Qed.







(* ===================================================================== *)
(** * What is written to standard output *)
(* ===================================================================== *)

Lemma fst_bind {A B} (m : prog A) (f : A → prog B) :
  fst (m ≫= f) = fst m ++ match snd m with
                          | Ok a => fst (f a)
                          | Raise e => ""
                          end.
Proof.
  destruct m as [out [a|e]]; cbn [mbind prog_bind fst snd].
  - by destruct (f a).
  - by rewrite string_app_nil_r.
Qed.

Lemma bind_ends_with {A} (m : prog A) (f : A → prog unit) (tail : string) :
  (∀ a, snd (f a) = Ok tt → ∃ body, fst (f a) = body ++ tail) →
  snd (m ≫= f) = Ok tt → ∃ body, fst (m ≫= f) = body ++ tail.
Proof.
  intros Hf. rewrite snd_bind, fst_bind. destruct m as [out [a|e]]; cbn [fst snd].
  - intros [body ->]%Hf. exists (out ++ body). by rewrite string_app_assoc.
  - discriminate.
Qed.

(** X22: whatever the input files hold, the output begins with the LaTeX
    header, which depends on [--black] only; the output of a run that
    comes to its end is closed by the footer. *)
Theorem output_frame (opts : options) (pref_file : list pref_row)
    (assign_file : option (list assign_row))
    (lengths_file : option (list length_row)) :
  (∃ rest, fst (run opts pref_file assign_file lengths_file)
           = header opts ++ rest)
  ∧ (snd (run opts pref_file assign_file lengths_file) = Ok tt →
     ∃ body, fst (run opts pref_file assign_file lengths_file)
             = body ++ footer ++ nl).
Proof.
  split.
  - unfold run. rewrite fst_bind. cbn [print fst snd].
    rewrite fst_bind. cbn [print fst snd].
    rewrite fst_bind. cbn [print fst snd].
    eexists. unfold header. rewrite !string_app_assoc. reflexivity.
  - unfold run.
    apply bind_ends_with. intros _. apply bind_ends_with. intros _.
    apply bind_ends_with. intros _. apply bind_ends_with. intros st.
    apply bind_ends_with. intros ps. apply bind_ends_with.
    intros [sorted_papers sorted_pc].
    apply bind_ends_with. intros _. apply bind_ends_with. intros _.
    apply bind_ends_with. intros _ _. by exists "".
Qed.

(* ===================================================================== *)
(** * The range of the affinity *)
(* ===================================================================== *)

Lemma affinity_fold_range prefs_scaled name (M : Z) (l : list (nat * string)) :
  (∀ i p, (i, p) ∈ l → Z.of_nat i <= M) →
  (∀ p v, lookup2 prefs_scaled p name = Some v → 0 <= v) →
  ∀ s t, 0 <= t → 0 <= s <= t * M →
    0 <= snd (fold_left (affinity_step prefs_scaled name) l (s, t))
    ∧ 0 <= fst (fold_left (affinity_step prefs_scaled name) l (s, t))
      <= snd (fold_left (affinity_step prefs_scaled name) l (s, t)) * M.
Proof.
  intros Hidx Hpos. induction l as [|[i p] l IH]; intros s t Ht Hs; [done|].
  cbn [fold_left affinity_step].
  assert (Hi : Z.of_nat i <= M) by (apply (Hidx i p); by left).
  assert (Hl : ∀ j q, (j, q) ∈ l → Z.of_nat j <= M)
    by (intros j q Hin; apply (Hidx j q); by right).
  destruct (lookup2 prefs_scaled p name) as [v|] eqn:Hv.
  - pose proof (Hpos _ _ Hv). apply (IH Hl); nia.
  - by apply (IH Hl).
Qed.

Lemma affinity_fold_mono prefs_scaled name (l : list (nat * string)) :
  (∀ p v, lookup2 prefs_scaled p name = Some v → 0 <= v) →
  ∀ s t, t <= snd (fold_left (affinity_step prefs_scaled name) l (s, t)).
Proof.
  intros Hpos. induction l as [|[i p] l IH]; intros s t; [done|].
  cbn [fold_left affinity_step].
  destruct (lookup2 prefs_scaled p name) as [v|] eqn:Hv; [|apply IH].
  pose proof (Hpos _ _ Hv). etransitivity; [|apply IH]. lia.
Qed.

Lemma affinity_fold_lower prefs_scaled name (l : list (nat * string)) :
  (∀ p v, lookup2 prefs_scaled p name = Some v → 0 <= v) →
  ∀ i p v s t, (i, p) ∈ l → lookup2 prefs_scaled p name = Some v →
    t + v <= snd (fold_left (affinity_step prefs_scaled name) l (s, t)).
Proof.
  intros Hpos i p v. induction l as [|[j q] l IH]; intros s t Hin Hv.
  - by apply elem_of_nil in Hin.
  - cbn [fold_left affinity_step]. apply elem_of_cons in Hin as [[= <- <-]|Hin].
    + rewrite Hv. apply affinity_fold_mono, Hpos.
    + destruct (lookup2 prefs_scaled q name) as [w|] eqn:Hw; [|by apply IH].
      pose proof (Hpos _ _ Hw). etransitivity; [|by apply IH]. lia.
Qed.

Lemma position_in_order (sorted_papers : list string) p : ∀ k,
  p ∈ sorted_papers →
  ∃ i, (i, p) ∈ combine (seq k (length sorted_papers)) sorted_papers.
Proof.
  induction sorted_papers as [|q l IH]; intros k Hp.
  - by apply elem_of_nil in Hp.
  - simpl. apply elem_of_cons in Hp as [->|Hp].
    + exists k. by left.
    + destruct (IH (S k) Hp) as [i Hi]. exists i. by right.
Qed.

(** X23: the affinity of a reviewer is a position in the paper order, from
    0 to the last one, or the sentinel -1; it is never the sentinel when
    the reviewer has a positive intensity for a paper of the order. *)
Theorem affinity_range (prefs : gmap string (gmap string Z))
    (papers : list string) (pcs : list (string * pc_info))
    (prefs_scaled : gmap string (gmap string Z))
    (sorted_papers : list string) (name : string) :
  compute_prefs_scaled prefs papers pcs = Ok prefs_scaled →
  (affinity prefs_scaled sorted_papers name = (-1 # 1)%Q
   ∨ (0 <= affinity prefs_scaled sorted_papers name
      <= inject_Z (Z.of_nat (length sorted_papers) - 1))%Q)
  ∧ (∀ p v, p ∈ sorted_papers → lookup2 prefs_scaled p name = Some v → 0 < v →
       affinity prefs_scaled sorted_papers name ≠ (-1 # 1)%Q).
Proof.
  intros Htbl.
  assert (Hpos : ∀ p v, lookup2 prefs_scaled p name = Some v → 0 <= v).
  { intros p v Hv. by destruct (prefs_scaled_range prefs papers pcs _ _ _ _ Htbl Hv). }
  set (n := length sorted_papers).
  assert (Hidx : ∀ i p, (i, p) ∈ combine (seq 0 n) sorted_papers →
                        Z.of_nat i <= Z.of_nat n - 1).
  { intros i p Hin%list_elem_of_In%in_combine_l%in_seq. lia. }
  split.
  - unfold affinity, affinity_sums. fold n.
    destruct sorted_papers as [|p0 rest]; [by left|].
    destruct (affinity_fold_range prefs_scaled name (Z.of_nat n - 1) _ Hidx Hpos 0 0)
      as (Ht & Hs); [lia| |].
    { subst n. simpl length. lia. }
    destruct (fold_left _ _ _) as [s t]. cbn [fst snd] in *.
    destruct (Z.ltb_spec 0 t) as [Hlt|]; [right|by left].
    unfold Qle, inject_Z. cbn [Qnum Qden]. rewrite Z2Pos.id by done. lia.
  - intros p v Hp Hv Hv0 Haff. unfold affinity, affinity_sums in Haff. fold n in Haff.
    destruct (position_in_order sorted_papers p 0 Hp) as [i Hi]. fold n in Hi.
    pose proof (affinity_fold_lower prefs_scaled name _ Hpos i p v 0 0 Hi Hv) as Hlow.
    destruct (affinity_fold_range prefs_scaled name (Z.of_nat n - 1) _ Hidx Hpos 0 0)
      as (_ & Hs & _); [lia| |].
    { destruct sorted_papers; [by apply elem_of_nil in Hp|]. subst n. simpl length. lia. }
    destruct (fold_left _ _ _) as [s t]. cbn [fst snd] in *.
    destruct (Z.ltb_spec 0 t) as [Hlt|Hle]; [|lia].
    injection Haff as Hs' _. lia.
Qed.

Lemma affinity_range_witness :
  let st := loaded rows_three in
  compute_prefs_scaled (prefs st) (keys (papers st)) (compute_bounds false st)
    = Ok (scaled false st)
  ∧ (affinity (scaled false st) ["1"; "2"; "3"] "Ann A" = (-1 # 1)%Q
     ∨ (0 <= affinity (scaled false st) ["1"; "2"; "3"] "Ann A"
        <= inject_Z (Z.of_nat (length ["1"; "2"; "3"]) - 1))%Q)
  ∧ (∀ p v, p ∈ ["1"; "2"; "3"] → lookup2 (scaled false st) p "Ann A" = Some v →
       0 < v → affinity (scaled false st) ["1"; "2"; "3"] "Ann A" ≠ (-1 # 1)%Q).
Proof.
  intros st.
  assert (H1 : compute_prefs_scaled (prefs st) (keys (papers st))
                 (compute_bounds false st) = Ok (scaled false st))
    by (by vm_compute).
  split; [exact H1|].
  exact (affinity_range _ _ _ _ ["1"; "2"; "3"] "Ann A" H1).
Defined.

(* ===================================================================== *)
(** * More on [latex_encode] *)
(* ===================================================================== *)

Lemma string_length_app (a b : string) :
  String.length (a ++ b) = (String.length a + String.length b)%nat.
Proof.
  induction a as [|c a IH]; [done|].
  change (String c a ++ b) with (String c (a ++ b)). simpl. by rewrite IH.
Qed.

(** X24: escaping works character by character: the escaped form of a
    concatenation is the concatenation of the escaped forms, and escaping
    never shortens a text. *)
Theorem latex_encode_app (a b : string) :
  latex_encode (a ++ b) = latex_encode a ++ latex_encode b
  ∧ (String.length a <= String.length (latex_encode a))%nat.
Proof.
  split.
  - induction a as [|c a IH]; [done|].
    change (String c a ++ b) with (String c (a ++ b)).
    by rewrite !latex_encode_cons, IH, string_app_assoc.
  - induction a as [|c a IH]; [done|]. rewrite latex_encode_cons.
    assert (Hc : (1 <= String.length (escape_char c))%nat).
    { unfold escape_char.
      destruct (match_alt conv_alts (String c EmptyString)) as [k|] eqn:E;
        [|simpl; lia].
      apply match_alt_In in E as [Hin _]. vm_compute in Hin.
      repeat (destruct Hin as [<-|Hin]; [vm_compute; lia|]). destruct Hin. }
    rewrite string_length_app. simpl String.length. lia.
Qed.

Lemma unescape_escape_char c rest :
  unescape conv (escape_char c ++ rest) = Some (String c EmptyString, rest).
Proof.
  destruct c as [[] [] [] [] [] [] [] []]; vm_compute; reflexivity.
Qed.

Lemma latex_decode_encode text : ∀ fuel,
  (String.length text <= fuel)%nat →
  latex_decode fuel (latex_encode text) = text.
Proof.
  induction text as [|c text IH]; intros fuel Hfuel.
  - by destruct fuel.
  - destruct fuel as [|fuel]; [simpl in Hfuel; lia|].
    rewrite latex_encode_cons. cbn [latex_decode].
    rewrite unescape_escape_char. rewrite IH by (simpl in Hfuel; lia). done.
Qed.

(** X25: escaping loses nothing: two different texts are never escaped to
    the same text. *)
Theorem latex_encode_injective (a b : string) :
  a ≠ b → latex_encode a ≠ latex_encode b.
Proof.
  intros Hne Heq. apply Hne.
  pose proof (latex_decode_encode a (String.length a + String.length b)) as Ha.
  pose proof (latex_decode_encode b (String.length a + String.length b)) as Hb.
  rewrite Heq in Ha. specialize (Ha ltac:(lia)). specialize (Hb ltac:(lia)).
  congruence.
Qed.

Lemma latex_encode_injective_witness :
  "a_b" ≠ "a\_b" ∧ latex_encode "a_b" ≠ latex_encode "a\_b".
Proof.
  assert (H : "a_b" ≠ "a\_b") by done.
  split; [exact H|]. exact (latex_encode_injective "a_b" "a\_b" H).
Defined.

(* ===================================================================== *)
(** * The command line *)
(* ===================================================================== *)

Lemma declared_cases o :
  in_tuple o declared_options = true →
  o = "-b" ∨ o = "--black" ∨ o = "-s" ∨ o = "--scale"
  ∨ o = "-o" ∨ o = "--order" ∨ o = "-l" ∨ o = "--lengths".
Proof.
  unfold in_tuple, declared_options. cbn [existsb].
  rewrite !orb_true_iff, !String.eqb_eq. intuition discriminate.
Qed.

Lemma option_step_declared acc o a :
  is_Some (option_step acc (o, a)) ↔ in_tuple o declared_options = true.
Proof.
  destruct acc as [flags lengths_file]. split.
  - unfold option_step, in_tuple, declared_options. cbn [existsb].
    destruct (String.eqb o "-s"), (String.eqb o "--scale"),
      (String.eqb o "-b"), (String.eqb o "--black"),
      (String.eqb o "-o"), (String.eqb o "--order"),
      (String.eqb o "-l"), (String.eqb o "--lengths"); cbn; try done;
      try by intros [? ?].
  - intros Ho. destruct (declared_cases o Ho) as [->|[->|[->|[->|[->|[->|[->| ->]]]]]]];
      by eexists.
Qed.

Lemma read_options_spec opts : ∀ flags lengths_file,
  Forall (λ oa, in_tuple (fst oa) declared_options = true) opts →
  read_options (flags, lengths_file) opts
  = Some ({| opt_black := opt_black flags || given ["-b"; "--black"] opts;
             opt_scale := opt_scale flags || given ["-s"; "--scale"] opts;
             opt_order := opt_order flags || given ["-o"; "--order"] opts |},
          match last (lengths_arguments opts) with
          | Some a => Some a
          | None => lengths_file
          end).
Proof.
  induction opts as [|[o a] opts IH]; intros flags lengths_file Hall.
  - destruct flags. cbn. by rewrite !orb_false_r.
  - apply list.Forall_cons in Hall as [Ho Hall]. cbn [fst] in Ho.
    cbn [read_options given existsb lengths_arguments omap list_omap fst snd].
    fold (lengths_arguments opts).
    fold (given ["-b"; "--black"] opts) (given ["-s"; "--scale"] opts)
         (given ["-o"; "--order"] opts).
    destruct (declared_cases o Ho) as [->|[->|[->|[->|[->|[->|[->| ->]]]]]]];
      cbn [option_step in_tuple existsb String.eqb Ascii.eqb Bool.eqb orb andb];
      rewrite (IH _ _ Hall); cbn [opt_black opt_scale opt_order];
      rewrite ?orb_true_r, ?orb_true_l, ?orb_false_l; try done.
    all: rewrite last_cons; by destruct (last (lengths_arguments opts)).
Qed.

(** X26: the loop over the options fails on an option that is not
    declared and on nothing else.  For declared options a flag is set
    exactly when the option is given, in its short or long form, once or
    several times and in any position, and the lengths file is the
    argument of the last [-l] or [--lengths]. *)
Theorem options_read (opts : list (string * string)) :
  (is_Some (read_options no_options opts)
   ↔ Forall (λ oa, in_tuple (fst oa) declared_options = true) opts)
  ∧ ∀ flags lengths_file,
      read_options no_options opts = Some (flags, lengths_file) →
      opt_black flags = given ["-b"; "--black"] opts
      ∧ opt_scale flags = given ["-s"; "--scale"] opts
      ∧ opt_order flags = given ["-o"; "--order"] opts
      ∧ lengths_file = last (lengths_arguments opts).
Proof.
  assert (Hfail : ∀ acc, is_Some (read_options acc opts) →
            Forall (λ oa, in_tuple (fst oa) declared_options = true) opts).
  { induction opts as [|[o a] opts IH]; intros acc Hs; [by constructor|].
    cbn [read_options] in Hs.
    destruct (option_step acc (o, a)) as [acc'|] eqn:E; [|by destruct Hs].
    constructor; [|by apply (IH acc')].
    apply (option_step_declared acc o a). by rewrite E. }
  split; [split; [apply Hfail|]|].
  - intros Hall. unfold no_options. rewrite read_options_spec by done. by eexists.
  - intros flags lengths_file Hread.
    assert (Hall := Hfail no_options ltac:(by rewrite Hread)).
    unfold no_options in Hread. rewrite read_options_spec in Hread by done.
    injection Hread as <- <-. cbn [opt_black opt_scale opt_order orb].
    by destruct (last (lengths_arguments opts)).
Qed.

